(** * pgvectorcpp: the [Vector] value type of src-cpp/core/vector.{hpp,cpp}

    A shallow embedding of the class [Vector] (header fields [vl_len_],
    [dim], [unused] and a [std::vector<float>] payload) and of its
    operations, followed by the properties established about them.

    Conventions of the embedding
    - a C++ call either returns, throws a [std::runtime_error] carrying its
      [what()] text, or has undefined behaviour (an access outside an array);
      the three cases are the constructors of [outcome];
    - [int32], [int16] and [size_t] values are integers of [Z]; the byte
      images copied by [memcpy] are two's complement, in the byte order of
      the host, which is a parameter ([byte_order]);
    - a [float] is its 32-bit IEEE-754 binary32 image (a [Z] below [2^32]);
      arithmetic and comparisons decode the image to a [spec_float] and use
      the operations of [SpecFloat] at precision 24 and maximal exponent 128
      (round to nearest, ties to even). *)

From Stdlib Require Import String Ascii.
From Stdlib Require Import ZArith List Bool Lia.
From Stdlib Require Import Floats.SpecFloat.
From Stdlib Require Import Strings.Byte.
From Stdlib Require Import DecimalString.
Import ListNotations.

Open Scope Z_scope.

(* ================================================================= *)
(** ** Outcomes of a C++ call *)

Module Cxx.

Inductive exn : Type :=
| runtime_error (what : string).

Inductive outcome (A : Type) : Type :=
| Ret (a : A)
| Throw (e : exn)
| Undefined.

Arguments Ret {A} a.
Arguments Throw {A} e.
Arguments Undefined {A}.

Definition bind {A B : Type} (m : outcome A) (k : A -> outcome B) : outcome B :=
  match m with
  | Ret a => k a
  | Throw e => Throw e
  | Undefined => Undefined
  end.

(** An array access [p[i]]: defined only inside the array. *)
Definition subscript {A : Type} (l : list A) (i : nat) : outcome A :=
  match nth_error l i with
  | Some x => Ret x
  | None => Undefined
  end.

(** The assignment [p[i] = x]. *)
Fixpoint assign {A : Type} (l : list A) (i : nat) (x : A) : outcome (list A) :=
  match l, i with
  | [], _ => Undefined
  | _ :: t, O => Ret (x :: t)
  | h :: t, S j => bind (assign t j x) (fun t' => Ret (h :: t'))
  end.

(** [for (size_t i = start; i < start + n; ++i) body], threading a state. *)
Fixpoint for_loop {S : Type} (n i : nat) (body : nat -> S -> outcome S) (s : S)
  : outcome S :=
  match n with
  | O => Ret s
  | Datatypes.S n' => bind (body i s) (for_loop n' (Datatypes.S i) body)
  end.

(** [std::to_string] on an [int]. *)
Definition to_string (z : Z) : string := NilZero.string_of_int (Z.to_int z).

End Cxx.

Import Cxx.

Notation "x <- m ;; k" := (bind m (fun x => k))
  (at level 61, m at next level, right associativity).
Notation "m ;;; k" := (bind m (fun _ => k))
  (at level 61, right associativity).

(* ================================================================= *)
(** ** Bytes, object representations and [memcpy] *)

Module Mem.

Inductive byte_order : Type := LittleEndian | BigEndian.

Definition Z_of_byte (b : byte) : Z := Z.of_N (Byte.to_N b).

Definition byte_of_Z (z : Z) : byte :=
  match Byte.of_N (Z.to_N (z mod 256)) with
  | Some b => b
  | None => x00
  end.

(** The [n] low-order bytes of [z], least significant first; a negative [z]
    yields its two's complement image. *)
Fixpoint le_bytes (n : nat) (z : Z) : list byte :=
  match n with
  | O => []
  | S n' => byte_of_Z z :: le_bytes n' (z / 256)
  end.

Fixpoint le_value (bs : list byte) : Z :=
  match bs with
  | [] => 0
  | b :: t => Z_of_byte b + 256 * le_value t
  end.

Definition in_host_order (host : byte_order) (bs : list byte) : list byte :=
  match host with
  | LittleEndian => bs
  | BigEndian => rev bs
  end.

(** Object representation of an [n]-byte integer object holding [z]. *)
Definition object_bytes (host : byte_order) (n : nat) (z : Z) : list byte :=
  in_host_order host (le_bytes n z).

(** Value of an unsigned integer object with the given bytes. *)
Definition unsigned_value (host : byte_order) (bs : list byte) : Z :=
  le_value (in_host_order host bs).

(** Value of a signed (two's complement) integer object with the given bytes. *)
Definition signed_value (host : byte_order) (bs : list byte) : Z :=
  let u := unsigned_value host bs in
  let w := 8 * Z.of_nat (length bs) in
  if u <? 2 ^ (w - 1) then u else u - 2 ^ w.

(** [memcpy(&object, buffer + pos, n)]: the [n] bytes at [pos]. *)
Definition read_at (buf : list byte) (pos n : nat) : outcome (list byte) :=
  if (pos + n <=? length buf)%nat then Ret (firstn n (skipn pos buf))
  else Undefined.

(** [memcpy(buffer + pos, &object, n)] with [src] the [n] bytes of the object. *)
Definition write_at (buf : list byte) (pos : nat) (src : list byte)
  : outcome (list byte) :=
  if (pos + length src <=? length buf)%nat
  then Ret (firstn pos buf ++ src ++ skipn (pos + length src) buf)
  else Undefined.

(** Cut a byte sequence into consecutive objects of [n] bytes. *)
Fixpoint chunks (n count : nat) (bs : list byte) : list (list byte) :=
  match count with
  | O => []
  | S c => firstn n bs :: chunks n c (skipn n bs)
  end.

Definition sizeof_int32 : nat := 4.
Definition sizeof_int16 : nat := 2.
Definition sizeof_float : nat := 4.

Definition int32_range (z : Z) : Prop := - 2 ^ 31 <= z < 2 ^ 31.
Definition int16_range (z : Z) : Prop := - 2 ^ 15 <= z < 2 ^ 15.

(** [static_cast<size_t>] of a signed integer (64-bit [size_t]). *)
Definition to_size_t (z : Z) : Z := z mod 2 ^ 64.

End Mem.

Import Mem.

(* ================================================================= *)
(** ** Single-precision floats *)

Module Float32.

Definition prec : Z := 24.
Definition emax : Z := 128.

(** A [float] object is identified with its 32-bit image. *)
Definition float : Type := Z.

Definition is_float (x : float) : Prop := 0 <= x < 2 ^ 32.

Definition sign_field (x : float) : bool := Z.testbit x 31.
Definition exponent_field (x : float) : Z := Z.land (Z.shiftr x 23) 255.
Definition fraction_field (x : float) : Z := Z.land x (2 ^ 23 - 1).

(** The value denoted by an image. *)
Definition to_SF (x : float) : spec_float :=
  let s := sign_field x in
  let e := exponent_field x in
  let m := fraction_field x in
  if e =? 0 then
    match m with
    | Zpos p => S754_finite s p (-149)
    | _ => S754_zero s
    end
  else if e =? 255 then
    if m =? 0 then S754_infinity s else S754_nan
  else
    match m + 2 ^ 23 with
    | Zpos p => S754_finite s p (e - 150)
    | _ => S754_nan
    end.

Definition sign_bit (s : bool) : Z := if s then 2 ^ 31 else 0.

(** The image of a value; every NaN is stored as the quiet NaN 0x7FC00000. *)
Definition of_SF (f : spec_float) : float :=
  match f with
  | S754_zero s => sign_bit s
  | S754_infinity s => sign_bit s + 0x7F800000
  | S754_nan => 0x7FC00000
  | S754_finite s m e =>
      if Zpos m <? 2 ^ 23 then sign_bit s + Zpos m
      else sign_bit s + (e + 150) * 2 ^ 23 + (Zpos m - 2 ^ 23)
  end.

Definition zero : float := 0.

Definition add (x y : float) : float := of_SF (SFadd prec emax (to_SF x) (to_SF y)).
Definition sub (x y : float) : float := of_SF (SFsub prec emax (to_SF x) (to_SF y)).
Definition mul (x y : float) : float := of_SF (SFmul prec emax (to_SF x) (to_SF y)).
Definition div (x y : float) : float := of_SF (SFdiv prec emax (to_SF x) (to_SF y)).
Definition sqrt (x : float) : float := of_SF (SFsqrt prec emax (to_SF x)).
Definition abs (x : float) : float := of_SF (SFabs (to_SF x)).

Definition ltb (x y : float) : bool := SFltb (to_SF x) (to_SF y).
Definition gtb (x y : float) : bool := SFltb (to_SF y) (to_SF x).
Definition eqb (x y : float) : bool := SFeqb (to_SF x) (to_SF y).

Definition is_nan (x : float) : bool :=
  match to_SF x with
  | S754_nan => true
  | _ => false
  end.

End Float32.

(* ================================================================= *)
(** ** The class [Vector] *)

Definition VECTOR_MAX_DIM : Z := 16000.

Record Vector : Type := mkVector {
  vl_len_ : Z;                 (* int32: varlena header *)
  dim : Z;                     (* int16: number of dimensions *)
  unused : Z;                  (* int16: reserved for future use *)
  data : list Float32.float    (* std::vector<float> *)
}.

Definition set_data (v : Vector) (d : list Float32.float) : Vector :=
  mkVector (vl_len_ v) (dim v) (unused v) d.

(** *** Private checks *)

Definition validate_dimension (d : Z) : outcome unit :=
  if d <? 1 then
    Throw (runtime_error "vector must have at least 1 dimension")
  else if d >? VECTOR_MAX_DIM then
    Throw (runtime_error ("vector cannot have more than "
                          ++ to_string VECTOR_MAX_DIM ++ " dimensions"))
  else Ret tt.

Definition validate_index (v : Vector) (index : nat) : outcome unit :=
  if Z.of_nat index >=? to_size_t (dim v) then
    Throw (runtime_error "vector index out of range")
  else Ret tt.

Definition check_compatibility (this other : Vector) : outcome unit :=
  if negb (dim this =? dim other) then
    Throw (runtime_error ("different vector dimensions " ++ to_string (dim this)
                          ++ " and " ++ to_string (dim other)))
  else Ret tt.

(** *** Constructors *)

(** [Vector()] *)
Definition Vector_default : Vector := mkVector 0 0 0 [].

(** [explicit Vector(int16 dimensions)] *)
Definition Vector_ctor (dimensions : Z) : outcome Vector :=
  validate_dimension dimensions ;;;
  Ret (mkVector 0 dimensions 0 (repeat Float32.zero (Z.to_nat dimensions))).

(** [Vector(const Vector&)] *)
Definition Vector_copy (other : Vector) : Vector :=
  mkVector (vl_len_ other) (dim other) (unused other) (data other).

(** [Vector(Vector&&)]: the new object and the state left in [other]. *)
Definition Vector_move (other : Vector) : Vector * Vector :=
  (mkVector (vl_len_ other) (dim other) (unused other) (data other),
   mkVector 0 0 (unused other) []).

(** *** Element access *)

Definition getDim (v : Vector) : Z := dim v.

Definition getValue (v : Vector) (index : nat) : outcome Float32.float :=
  subscript (data v) index.

Definition setValue (v : Vector) (index : nat) (value : Float32.float)
  : outcome Vector :=
  d <- assign (data v) index value ;;
  Ret (set_data v d).

(** *** Arithmetic *)

(** The common shape of [operator+], [operator-] and [operator*]:
    check, construct [result(dim)], fill it in a loop over [data.size()]. *)
Definition elementwise (op : Float32.float -> Float32.float -> Float32.float)
  (this other : Vector) : outcome Vector :=
  check_compatibility this other ;;;
  result <- Vector_ctor (dim this) ;;
  d <- for_loop (length (data this)) 0
         (fun i rd =>
            x <- subscript (data this) i ;;
            y <- subscript (data other) i ;;
            assign rd i (op x y))
         (data result) ;;
  Ret (set_data result d).

Definition operator_plus : Vector -> Vector -> outcome Vector :=
  elementwise Float32.add.

Definition operator_minus : Vector -> Vector -> outcome Vector :=
  elementwise Float32.sub.

Definition operator_times : Vector -> Vector -> outcome Vector :=
  elementwise Float32.mul.

(** [Vector operator*(float scalar) const] *)
Definition operator_times_scalar (this : Vector) (scalar : Float32.float)
  : outcome Vector :=
  result <- Vector_ctor (dim this) ;;
  d <- for_loop (length (data this)) 0
         (fun i rd =>
            x <- subscript (data this) i ;;
            assign rd i (Float32.mul x scalar))
         (data result) ;;
  Ret (set_data result d).

(** [inline Vector operator*(float scalar, const Vector& vec)] *)
Definition scalar_times (scalar : Float32.float) (vec : Vector)
  : outcome Vector :=
  operator_times_scalar vec scalar.

(** *** Norms and similarity *)

Definition l2_norm (v : Vector) : Float32.float :=
  Float32.sqrt
    (fold_left (fun sum val => Float32.add sum (Float32.mul val val))
               (data v) Float32.zero).

Definition l1_norm (v : Vector) : Float32.float :=
  fold_left (fun sum val => Float32.add sum (Float32.abs val))
            (data v) Float32.zero.

Definition dot_product (this other : Vector) : outcome Float32.float :=
  check_compatibility this other ;;;
  for_loop (length (data this)) 0
    (fun i sum =>
       x <- subscript (data this) i ;;
       y <- subscript (data other) i ;;
       Ret (Float32.add sum (Float32.mul x y)))
    Float32.zero.

Definition cosine_similarity (this other : Vector) : outcome Float32.float :=
  dot <- dot_product this other ;;
  let norm_a := l2_norm this in
  let norm_b := l2_norm other in
  if Float32.eqb norm_a Float32.zero || Float32.eqb norm_b Float32.zero then
    Ret Float32.zero
  else
    Ret (Float32.div dot (Float32.mul norm_a norm_b)).

(** *** Comparisons *)

(** [std::equal(first1, last1, first2)] *)
Fixpoint std_equal (l1 l2 : list Float32.float) : outcome bool :=
  match l1 with
  | [] => Ret true
  | x :: t1 =>
      match l2 with
      | [] => Undefined
      | y :: t2 => if Float32.eqb x y then std_equal t1 t2 else Ret false
      end
  end.

Definition operator_eq (this other : Vector) : outcome bool :=
  if negb (dim this =? dim other) then Ret false
  else std_equal (data this) (data other).

Definition operator_ne (this other : Vector) : outcome bool :=
  b <- operator_eq this other ;; Ret (negb b).

(** The loop of [operator<]: [n] iterations remain, [i] is the index, and
    [fallthrough] is the statement after the loop. *)
Fixpoint lt_loop (n i : nat) (this other : list Float32.float)
  (fallthrough : outcome bool) : outcome bool :=
  match n with
  | O => fallthrough
  | S n' =>
      x <- subscript this i ;;
      y <- subscript other i ;;
      if Float32.ltb x y then Ret true
      else if Float32.gtb x y then Ret false
      else lt_loop n' (S i) this other fallthrough
  end.

Definition operator_lt (this other : Vector) : outcome bool :=
  let min_dim := Z.min (dim this) (dim other) in
  lt_loop (Z.to_nat min_dim) 0 (data this) (data other)
          (Ret (dim this <? dim other)).

Definition operator_le (this other : Vector) : outcome bool :=
  l <- operator_lt this other ;;
  if l then Ret true else operator_eq this other.

Definition operator_gt (this other : Vector) : outcome bool :=
  b <- operator_le this other ;; Ret (negb b).

Definition operator_ge (this other : Vector) : outcome bool :=
  b <- operator_lt this other ;; Ret (negb b).

(** *** Binary I/O *)

(** The bytes of the first [count] floats of an array (the source of a
    [memcpy] of [count * sizeof(float)] bytes). *)
Definition array_bytes (host : byte_order) (count : Z)
  (a : list Float32.float) : outcome (list byte) :=
  if (0 <=? count) && (count <=? Z.of_nat (length a)) then
    Ret (flat_map (object_bytes host sizeof_float) (firstn (Z.to_nat count) a))
  else Undefined.

(** Overwrite the first floats of an array (the destination of a [memcpy]). *)
Definition array_store (a fs : list Float32.float)
  : outcome (list Float32.float) :=
  if (length fs <=? length a)%nat then Ret (fs ++ skipn (length fs) a)
  else Undefined.

(** [void serialize(char* buffer) const]: the argument is the array that
    [buffer] points into, the result its contents after the call. *)
Definition serialize (host : byte_order) (v : Vector) (buffer : list byte)
  : outcome (list byte) :=
  let pos := 0%nat in
  b1 <- write_at buffer pos (object_bytes host sizeof_int32 (vl_len_ v)) ;;
  let pos := (pos + sizeof_int32)%nat in
  b2 <- write_at b1 pos (object_bytes host sizeof_int16 (dim v)) ;;
  let pos := (pos + sizeof_int16)%nat in
  b3 <- write_at b2 pos (object_bytes host sizeof_int16 (unused v)) ;;
  let pos := (pos + sizeof_int16)%nat in
  src <- array_bytes host (dim v) (data v) ;;
  write_at b3 pos src.

(** [static Vector deserialize(const char* buffer)] *)
Definition deserialize (host : byte_order) (buffer : list byte)
  : outcome Vector :=
  let pos := 0%nat in
  b <- read_at buffer pos sizeof_int32 ;;
  let vl_len := signed_value host b in
  let pos := (pos + sizeof_int32)%nat in
  b <- read_at buffer pos sizeof_int16 ;;
  let dimensions := signed_value host b in
  let pos := (pos + sizeof_int16)%nat in
  b <- read_at buffer pos sizeof_int16 ;;
  let unused_val := signed_value host b in
  let pos := (pos + sizeof_int16)%nat in
  vec <- Vector_ctor dimensions ;;
  let vec := mkVector vl_len (dim vec) unused_val (data vec) in
  src <- read_at buffer pos (Z.to_nat dimensions * sizeof_float) ;;
  d <- array_store (data vec)
         (map (unsigned_value host)
              (chunks sizeof_float (Z.to_nat dimensions) src)) ;;
  Ret (set_data vec d).

(* ================================================================= *)
(** ** The class [MemoryPool] of utils/memory_utils.hpp *)

(** A [char*]: the null pointer, or a position in the block with the given
    number. *)
Inductive pointer : Type :=
| null_pointer
| into_block (id : nat) (offset : Z).

(** [size_t] arithmetic wraps at [2^64]. *)
Definition size_t_wrap (z : Z) : Z := z mod 2 ^ 64.

Record MemoryPool : Type := mkMemoryPool {
  block_size_ : Z;                     (* size_t *)
  current_offset_ : Z;                 (* size_t *)
  blocks_ : list (option nat);         (* std::vector<std::unique_ptr<char[]>> *)
  current_block_ : option nat          (* std::unique_ptr<char[]>; None is null *)
}.

(** [explicit MemoryPool(size_t block_size = 1024 * 1024)] *)
Definition MemoryPool_ctor (block_size : Z) : MemoryPool :=
  mkMemoryPool block_size 0 [] None.

Definition default_block_size : Z := 1024 * 1024.

(** [p + n] on a [char*] obtained from [unique_ptr::get]: defined inside
    the block and one past its end; on the null pointer only [n = 0] is. *)
Definition pointer_add (block_size : Z) (p : option nat) (n : Z)
  : outcome pointer :=
  match p with
  | None => if n =? 0 then Ret null_pointer else Undefined
  | Some id => if n <=? block_size then Ret (into_block id n) else Undefined
  end.

Section MemoryPoolOperations.

(** [alignof(std::max_align_t)], fixed by the platform. *)
Variable max_align : Z.

(** [static constexpr size_t align_size(size_t size)] *)
Definition align_size (size : Z) : Z :=
  Z.land (size_t_wrap (size + max_align - 1))
         (size_t_wrap (Z.lnot (max_align - 1))).

(** [void allocate_new_block()]; the new block gets the next free number,
    and the [unique_ptr] moved into [blocks_] is left null. *)
Definition allocate_new_block (pool : MemoryPool) : MemoryPool :=
  let fresh := length (blocks_ pool) in
  (* current_block_ = std::make_unique<char[]>(block_size_); *)
  let pool := mkMemoryPool (block_size_ pool) (current_offset_ pool)
                           (blocks_ pool) (Some fresh) in
  (* blocks_.push_back(std::move(current_block_)); *)
  let pool := mkMemoryPool (block_size_ pool) (current_offset_ pool)
                           (blocks_ pool ++ [current_block_ pool]) None in
  (* current_offset_ = 0; *)
  mkMemoryPool (block_size_ pool) 0 (blocks_ pool) (current_block_ pool).

(** [void* allocate(size_t size)]: the pointer returned and the pool after
    the call. *)
Definition allocate (pool : MemoryPool) (size : Z)
  : outcome (pointer * MemoryPool) :=
  let size := align_size size in
  let pool :=
    if size_t_wrap (current_offset_ pool + size) >? block_size_ pool
    then allocate_new_block pool else pool in
  ptr <- pointer_add (block_size_ pool) (current_block_ pool)
                     (current_offset_ pool) ;;
  Ret (ptr,
       mkMemoryPool (block_size_ pool)
                    (size_t_wrap (current_offset_ pool + size))
                    (blocks_ pool) (current_block_ pool)).

(** [void reset()] *)
Definition reset (pool : MemoryPool) : MemoryPool :=
  mkMemoryPool (block_size_ pool) 0 [] None.

(** The pools that a program can build: made by the constructor, then
    changed by [allocate] and [reset]. *)
Inductive reachable : MemoryPool -> Prop :=
| reachable_ctor (block_size : Z) :
    0 <= block_size < 2 ^ 64 -> reachable (MemoryPool_ctor block_size)
| reachable_allocate (pool pool' : MemoryPool) (size : Z) (p : pointer) :
    reachable pool -> 0 <= size < 2 ^ 64 ->
    allocate pool size = Ret (p, pool') -> reachable pool'
| reachable_reset (pool : MemoryPool) :
    reachable pool -> reachable (reset pool).

End MemoryPoolOperations.

(* ================================================================= *)
(** ** Vocabulary of the properties *)

(** The error kinds of the design are all [std::runtime_error] in the code;
    they are told apart by the text of [what()]. *)

Definition InvalidDimension (e : exn) : Prop :=
  e = runtime_error "vector must have at least 1 dimension" \/
  e = runtime_error "vector cannot have more than 16000 dimensions".

Definition DimensionMismatch (e : exn) : Prop :=
  exists d1 d2 : Z,
    e = runtime_error ("different vector dimensions " ++ to_string d1
                       ++ " and " ++ to_string d2).

Definition IndexOutOfRange (e : exn) : Prop :=
  e = runtime_error "vector index out of range".

Definition fails_with {A : Type} (kind : exn -> Prop) (r : outcome A) : Prop :=
  exists e, r = Throw e /\ kind e.

Definition succeeds {A : Type} (r : outcome A) : Prop :=
  exists a, r = Ret a.

(** The class invariant kept by every constructor and assignment:
    [data.size() == dim]. *)
Definition well_formed (v : Vector) : Prop :=
  0 <= dim v /\ length (data v) = Z.to_nat (dim v).

(** A vector of the data model: the invariant and a dimension in range. *)
Definition valid (v : Vector) : Prop :=
  1 <= dim v <= VECTOR_MAX_DIM /\ length (data v) = Z.to_nat (dim v).

(** The header fields and the elements fit their C++ types. *)
Definition representable (v : Vector) : Prop :=
  int32_range (vl_len_ v) /\ int16_range (dim v) /\ int16_range (unused v) /\
  Forall Float32.is_float (data v).

(** Pairwise combination of two arrays. *)
Definition zip_with (op : Float32.float -> Float32.float -> Float32.float)
  (a b : list Float32.float) : list Float32.float :=
  map (fun p => op (fst p) (snd p)) (combine a b).

(** Left-to-right accumulation of the products, starting from [sum]. *)
Definition dot_from (sum : Float32.float) (a b : list Float32.float)
  : Float32.float :=
  fold_left (fun s p => Float32.add s (Float32.mul (fst p) (snd p)))
            (combine a b) sum.

(** [r] is the elementwise combination of [a] and [b] under [op]. *)
Definition elementwise_result
  (op : Float32.float -> Float32.float -> Float32.float) (a b r : Vector)
  : Prop :=
  dim r = dim a /\
  length (data r) = length (data a) /\
  forall i x y,
    nth_error (data a) i = Some x -> nth_error (data b) i = Some y ->
    nth_error (data r) i = Some (op x y).

(** Every element is [+0.0] or [-0.0]. *)
Definition is_zero_vector (v : Vector) : Prop :=
  Forall (fun x => exists s, Float32.to_SF x = S754_zero s) (data v).

(** The vectors [[1,2,3]] and [[4,5,6]] of the unit tests. *)
Definition v123 : Vector :=
  mkVector 0 3 0 [0x3F800000; 0x40000000; 0x40400000].
Definition v456 : Vector :=
  mkVector 0 3 0 [0x40800000; 0x40A00000; 0x40C00000].

Definition nan_free (v : Vector) : Prop :=
  Forall (fun x => Float32.is_nan x = false) (data v).

(** The dimension field of the header at the start of a buffer. *)
Definition header_dimension (host : byte_order) (buffer : list byte) : Z :=
  signed_value host (firstn sizeof_int16 (skipn sizeof_int32 buffer)).

(** The image of a vector: 8 bytes of header, then 4 bytes per element. *)
Definition image (host : byte_order) (v : Vector) : list byte :=
  object_bytes host sizeof_int32 (vl_len_ v)
  ++ object_bytes host sizeof_int16 (dim v)
  ++ object_bytes host sizeof_int16 (unused v)
  ++ flat_map (object_bytes host sizeof_float) (data v).

(** [(a + b) - b] *)
Definition add_then_subtract (a b : Vector) : outcome Vector :=
  s <- operator_plus a b ;; operator_minus s b.

(** *** The order of [operator<] *)

(** [operator<] as a recursion on the two arrays. *)
Fixpoint list_lt (a b : list Float32.float) : bool :=
  match a, b with
  | [], [] => false
  | [], _ :: _ => true
  | _ :: _, [] => false
  | x :: ta, y :: tb =>
      if Float32.ltb x y then true
      else if Float32.gtb x y then false
      else list_lt ta tb
  end.

(** Position of a value that is not a NaN on the extended real line:
    the sign class first, then exponent and significand. *)
Definition SF_key (f : spec_float) : Z * Z * Z :=
  match f with
  | S754_nan => (0, 0, 0)
  | S754_zero _ => (0, 0, 0)
  | S754_infinity true => (-2, 0, 0)
  | S754_infinity false => (2, 0, 0)
  | S754_finite false m e => (1, e, Zpos m)
  | S754_finite true m e => (-1, - e, Zneg m)
  end.

Definition key_ltb (k1 k2 : Z * Z * Z) : bool :=
  let '(a1, b1, c1) := k1 in
  let '(a2, b2, c2) := k2 in
  (a1 <? a2) || ((a1 =? a2) && ((b1 <? b2) || ((b1 =? b2) && (c1 <? c2)))).

Fixpoint key_list_lt (a b : list (Z * Z * Z)) : bool :=
  match a, b with
  | [], [] => false
  | [], _ :: _ => true
  | _ :: _, [] => false
  | x :: ta, y :: tb =>
      if key_ltb x y then true
      else if key_ltb y x then false
      else key_list_lt ta tb
  end.

Definition keys (v : Vector) : list (Z * Z * Z) :=
  map (fun x => SF_key (Float32.to_SF x)) (data v).

(** The elements of [a] and [b] at the indices below [i] compare equal. *)
Definition equal_before (i : nat) (a b : list Float32.float) : Prop :=
  forall j u v,
    (j < i)%nat -> nth_error a j = Some u -> nth_error b j = Some v ->
    Float32.eqb u v = true.

Definition vector_lt (a b : Vector) : Prop := operator_lt a b = Ret true.

Definition incomparable (a b : Vector) : Prop :=
  ~ vector_lt a b /\ ~ vector_lt b a.

(** [operator<] is a strict weak ordering of the vectors satisfying [P]. *)
Definition strict_weak_order (P : Vector -> Prop) : Prop :=
  (forall a, P a -> ~ vector_lt a a) /\
  (forall a b c, P a -> P b -> P c ->
                 vector_lt a b -> vector_lt b c -> vector_lt a c) /\
  (forall a b c, P a -> P b -> P c ->
                 incomparable a b -> incomparable b c -> incomparable a c).

(** Some element is a NaN. *)
Definition has_nan (v : Vector) : Prop :=
  Exists (fun x => Float32.is_nan x = true) (data v).

(** Corresponding elements compare equal. *)
Definition elements_equal (a b : list Float32.float) : Prop :=
  Forall2 (fun x y => Float32.eqb x y = true) a b.

(** *** Concrete inputs *)

(** The vector made by [Vector(3)]. *)
Definition zeros3 : Vector := mkVector 0 3 0 (repeat Float32.zero 3).

(** A one-element vector. *)
Definition single (x : Float32.float) : Vector := mkVector 0 1 0 [x].

Definition f_one : Float32.float := 0x3F800000.        (* 1.0f *)
Definition f_two : Float32.float := 0x40000000.        (* 2.0f *)
Definition f_nan : Float32.float := 0x7FC00000.        (* quiet NaN *)
Definition f_2p24 : Float32.float := 0x4B800000.       (* 16777216.0f *)

(** A header announcing one element, with no element after it. *)
Definition header_only : list byte :=
  [x00; x00; x00; x00; x01; x00; x00; x00].

(** The message of the lower bound check of [validate_dimension]. *)
Definition at_least_one_dimension : exn :=
  runtime_error "vector must have at least 1 dimension".

(** Case analysis on the integer tests of a goal. *)
Ltac decide_Z_tests :=
  repeat match goal with
         | |- context [Z.ltb ?a ?b] => destruct (Z.ltb_spec a b)
         | |- context [Z.eqb ?a ?b] => destruct (Z.eqb_spec a b)
         end;
  cbn [orb andb]; try reflexivity; try lia.

(* ================================================================= *)
(** ** Arrays and loops *)

Lemma subscript_skipn {A : Type} (l : list A) (i : nat) (x : A) :
  nth_error l i = Some x -> skipn i l = x :: skipn (S i) l.
Proof.
  revert i; induction l as [|h t IH]; intros [|i] H; simpl in *; try discriminate.
  - now injection H as ->.
  - now apply IH.
Qed.

Lemma subscript_in_range {A : Type} (l : list A) (i : nat) :
  (i < length l)%nat -> exists x, nth_error l i = Some x.
Proof.
  intros H. destruct (nth_error l i) as [x|] eqn:E; eauto.
  apply nth_error_None in E. lia.
Qed.

Lemma assign_in_range {A : Type} (l : list A) (i : nat) (x : A) :
  (i < length l)%nat ->
  assign l i x = Ret (firstn i l ++ x :: skipn (S i) l).
Proof.
  revert i; induction l as [|h t IH]; intros [|i] H; simpl in *; try lia; auto.
  rewrite IH by lia. reflexivity.
Qed.

Lemma assign_out_of_range {A : Type} (l : list A) (i : nat) (x : A) :
  (length l <= i)%nat -> assign l i x = Undefined.
Proof.
  revert i; induction l as [|h t IH]; intros [|i] H; simpl in *; try lia; auto.
  rewrite IH by lia. reflexivity.
Qed.

Lemma firstn_snoc_write {A : Type} (r : list A) (i : nat) (x : A) :
  (i < length r)%nat ->
  firstn (S i) (firstn i r ++ x :: skipn (S i) r) = firstn i r ++ [x].
Proof.
  intros H.
  assert (L : length (firstn i r) = i) by (rewrite length_firstn; lia).
  rewrite firstn_app, L.
  replace (S i - i)%nat with 1%nat by lia.
  rewrite firstn_all2 by lia. reflexivity.
Qed.

(** The loop of the elementwise operators computes [zip_with]. *)
Lemma elementwise_loop op (a b : list Float32.float) :
  forall n i r,
    length a = (i + n)%nat -> length b = (i + n)%nat -> length r = (i + n)%nat ->
    for_loop n i
      (fun i rd =>
         x <- subscript a i ;; y <- subscript b i ;; assign rd i (op x y)) r
    = Ret (firstn i r ++ zip_with op (skipn i a) (skipn i b)).
Proof.
  induction n as [|n IH]; intros i r Ha Hb Hr; simpl.
  - rewrite skipn_all2 by lia. unfold zip_with; simpl.
    rewrite app_nil_r, firstn_all2 by lia. reflexivity.
  - destruct (subscript_in_range a i) as [x Hx]; [lia|].
    destruct (subscript_in_range b i) as [y Hy]; [lia|].
    unfold subscript at 1 2. rewrite Hx, Hy. cbn [bind].
    rewrite assign_in_range by lia. cbn [bind].
    rewrite IH.
    + rewrite firstn_snoc_write by lia.
      rewrite (subscript_skipn a i x Hx), (subscript_skipn b i y Hy).
      unfold zip_with; simpl. rewrite <- app_assoc. reflexivity.
    + lia.
    + lia.
    + rewrite length_app, length_firstn. cbn [length]. rewrite length_skipn. lia.
Qed.

(** The loop of [dot_product] accumulates from left to right. *)
Lemma dot_product_loop (a b : list Float32.float) :
  forall n i sum,
    length a = (i + n)%nat -> length b = (i + n)%nat ->
    for_loop n i
      (fun i sum =>
         x <- subscript a i ;; y <- subscript b i ;;
         Ret (Float32.add sum (Float32.mul x y))) sum
    = Ret (dot_from sum (skipn i a) (skipn i b)).
Proof.
  induction n as [|n IH]; intros i sum Ha Hb; simpl.
  - rewrite skipn_all2 by lia. reflexivity.
  - destruct (subscript_in_range a i) as [x Hx]; [lia|].
    destruct (subscript_in_range b i) as [y Hy]; [lia|].
    unfold subscript at 1 2. rewrite Hx, Hy. cbn [bind].
    rewrite IH by lia.
    rewrite (subscript_skipn a i x Hx), (subscript_skipn b i y Hy).
    reflexivity.
Qed.

Lemma subscript_never_throws {A : Type} (l : list A) (i : nat) (e : exn) :
  subscript l i <> Throw e.
Proof. unfold subscript. destruct (nth_error l i); discriminate. Qed.

Lemma assign_never_throws {A : Type} (l : list A) :
  forall (i : nat) (x : A) (e : exn), assign l i x <> Throw e.
Proof.
  induction l as [|h t IH]; intros [|i] x e; cbn [assign]; try discriminate.
  specialize (IH i x). destruct (assign t i x) as [t'|e'|]; cbn [bind];
    try discriminate.
  intros _. now apply (IH e').
Qed.

Lemma for_loop_never_throws {S : Type} (body : nat -> S -> outcome S) :
  (forall i s e, body i s <> Throw e) ->
  forall n i s e, for_loop n i body s <> Throw e.
Proof.
  intros B. induction n as [|n IH]; intros i s e; cbn [for_loop];
    [discriminate|].
  specialize (B i s). destruct (body i s) as [s'| e'|]; cbn [bind].
  - apply IH.
  - now destruct (B e').
  - discriminate.
Qed.

Lemma zip_with_nth op (a b : list Float32.float) (i : nat) x y :
  nth_error a i = Some x -> nth_error b i = Some y ->
  nth_error (zip_with op a b) i = Some (op x y).
Proof.
  revert b i; induction a as [|h t IH]; intros [|hb tb] [|i] Hx Hy;
    simpl in *; try discriminate.
  - injection Hx as ->. injection Hy as ->. reflexivity.
  - unfold zip_with in IH. now apply IH.
Qed.

Lemma zip_with_length op (a b : list Float32.float) :
  length a = length b -> length (zip_with op a b) = length a.
Proof.
  intros H. unfold zip_with. rewrite length_map, length_combine. lia.
Qed.

(* ================================================================= *)
(** ** Construction and validation *)

Lemma validate_dimension_ok (d : Z) :
  1 <= d <= VECTOR_MAX_DIM -> validate_dimension d = Ret tt.
Proof.
  intros [H1 H2]. unfold validate_dimension.
  destruct (Z.ltb_spec d 1); [lia|].
  destruct (d >? VECTOR_MAX_DIM) eqn:E; [|reflexivity].
  apply Z.gtb_lt in E. lia.
Qed.

Lemma Vector_ctor_ok (d : Z) :
  1 <= d <= VECTOR_MAX_DIM ->
  Vector_ctor d = Ret (mkVector 0 d 0 (repeat Float32.zero (Z.to_nat d))).
Proof.
  intros H. unfold Vector_ctor. now rewrite validate_dimension_ok.
Qed.

Lemma Vector_ctor_too_small (d : Z) :
  d < 1 ->
  Vector_ctor d = Throw (runtime_error "vector must have at least 1 dimension").
Proof.
  intros H. unfold Vector_ctor, validate_dimension.
  destruct (Z.ltb_spec d 1); [reflexivity|lia].
Qed.

Lemma Vector_ctor_too_large (d : Z) :
  d > VECTOR_MAX_DIM ->
  Vector_ctor d
  = Throw (runtime_error "vector cannot have more than 16000 dimensions").
Proof.
  intros H. unfold Vector_ctor, validate_dimension.
  destruct (Z.ltb_spec d 1); [unfold VECTOR_MAX_DIM in H; lia|].
  destruct (d >? VECTOR_MAX_DIM) eqn:E; [reflexivity|].
  rewrite Z.gtb_ltb in E. apply Z.ltb_ge in E. lia.
Qed.

Lemma Vector_ctor_throws (d : Z) (e : exn) :
  Vector_ctor d = Throw e -> InvalidDimension e.
Proof.
  unfold Vector_ctor, validate_dimension.
  destruct (d <? 1); [intros H; injection H as <-; now left|].
  destruct (d >? VECTOR_MAX_DIM); [|discriminate].
  intros H; injection H as <-; now right.
Qed.

Lemma mismatch_is_not_invalid (e : exn) :
  InvalidDimension e -> ~ DimensionMismatch e.
Proof.
  intros [-> | ->] (d1 & d2 & H); cbn in H; discriminate.
Qed.

(** C2. For every integer [d], constructing a vector of declared dimension
    [d] fails with the InvalidDimension error exactly when [d < 1] or
    [d > 16000]; for every other [d] the constructor returns a vector of
    dimension [d] holding [d] elements, each the float [+0.0]. *)
Theorem Vector_ctor_spec (d : Z) :
  (fails_with InvalidDimension (Vector_ctor d) <-> d < 1 \/ d > 16000) /\
  (~ (d < 1 \/ d > 16000) ->
   exists v, Vector_ctor d = Ret v /\ dim v = d /\
             Z.of_nat (length (data v)) = d /\
             forall i x, nth_error (data v) i = Some x ->
                         x = Float32.zero /\
                         Float32.to_SF x = S754_zero false).
Proof.
  split.
  - split.
    + intros (e & He & _).
      destruct (Z.lt_ge_cases d 1) as [|H1]; [now left|].
      destruct (Z.le_gt_cases d 16000) as [H2|]; [|right; lia].
      rewrite Vector_ctor_ok in He by (unfold VECTOR_MAX_DIM; lia).
      discriminate.
    + intros [H|H].
      * eexists; split; [now apply Vector_ctor_too_small|now left].
      * eexists; split; [now apply Vector_ctor_too_large|now right].
  - intros H.
    rewrite Vector_ctor_ok by (unfold VECTOR_MAX_DIM; lia).
    eexists; split; [reflexivity|]. cbn [dim data].
    split; [reflexivity|]. split.
    + rewrite repeat_length. lia.
    + intros i x Hx. apply nth_error_In, repeat_spec in Hx.
      subst x. split; reflexivity.
Qed.

Lemma Vector_ctor_spec_witness :
  exists v, Vector_ctor 3 = Ret v /\ dim v = 3 /\
            Z.of_nat (length (data v)) = 3 /\
            forall i x, nth_error (data v) i = Some x ->
                        x = Float32.zero /\
                        Float32.to_SF x = S754_zero false.
Proof.
  apply (proj2 (Vector_ctor_spec 3)). lia.
Defined.

(** C3, evaluated on the code. On the vector made by [Vector(3)], whose
    indices 0, 1 and 2 are valid, [getValue(3)] and [setValue(3, x)] are
    accesses outside the array and throw nothing, although the unused
    private check [validate_index] would report an IndexOutOfRange error
    there; inside the array both accessors succeed. *)
Theorem accessors_skip_validate_index :
  Vector_ctor 3 = Ret zeros3 /\
  fails_with IndexOutOfRange (validate_index zeros3 3) /\
  getValue zeros3 3 = Undefined /\
  (forall x, setValue zeros3 3 x = Undefined) /\
  ~ fails_with IndexOutOfRange (getValue zeros3 3) /\
  getValue zeros3 2 = Ret Float32.zero /\
  succeeds (setValue zeros3 2 f_one).
Proof.
  repeat split.
  - eexists; split; reflexivity.
  - intros (e & He & _). discriminate.
  - eexists; reflexivity.
Qed.

(** The accessors perform the raw access whatever the index. *)
Lemma accessors_in_range (v : Vector) (i : nat) (x : Float32.float) :
  well_formed v -> Z.of_nat i < dim v ->
  succeeds (getValue v i) /\ succeeds (setValue v i x).
Proof.
  intros [H0 HL] Hi. unfold getValue, setValue, subscript, succeeds.
  assert (Hlt : (i < length (data v))%nat) by lia.
  destruct (subscript_in_range _ _ Hlt) as [y Hy]. rewrite Hy.
  rewrite assign_in_range by exact Hlt. cbn [bind]. eauto.
Qed.

Lemma accessors_out_of_range (v : Vector) (i : nat) (x : Float32.float) :
  well_formed v -> dim v <= Z.of_nat i ->
  getValue v i = Undefined /\ setValue v i x = Undefined.
Proof.
  intros [H0 HL] Hi. unfold getValue, setValue, subscript.
  assert (Hge : (length (data v) <= i)%nat) by lia.
  rewrite (proj2 (nth_error_None _ _) Hge).
  rewrite assign_out_of_range by exact Hge. split; reflexivity.
Qed.

(* ================================================================= *)
(** ** Elementwise arithmetic and dot product *)

Lemma check_compatibility_same (a b : Vector) :
  dim a = dim b -> check_compatibility a b = Ret tt.
Proof.
  intros H. unfold check_compatibility. now rewrite H, Z.eqb_refl.
Qed.

Lemma check_compatibility_differ (a b : Vector) :
  dim a <> dim b -> fails_with DimensionMismatch (check_compatibility a b).
Proof.
  intros H. unfold check_compatibility.
  destruct (Z.eqb_spec (dim a) (dim b)); [contradiction|].
  eexists; split; [reflexivity|]. now exists (dim a), (dim b).
Qed.

Lemma elementwise_ok op (a b : Vector) :
  valid a -> valid b -> dim a = dim b ->
  elementwise op a b
  = Ret (mkVector 0 (dim a) 0 (zip_with op (data a) (data b))).
Proof.
  intros [Ra La] [Rb Lb] E. unfold elementwise.
  rewrite check_compatibility_same by exact E. cbn [bind].
  rewrite Vector_ctor_ok by exact Ra. cbn [bind data].
  rewrite (elementwise_loop op (data a) (data b) (length (data a)) 0).
  - reflexivity.
  - reflexivity.
  - rewrite Lb, <- E. now rewrite La.
  - rewrite repeat_length. now rewrite La.
Qed.

Lemma elementwise_mismatch op (a b : Vector) :
  dim a <> dim b -> fails_with DimensionMismatch (elementwise op a b).
Proof.
  intros H. unfold elementwise.
  destruct (check_compatibility_differ a b H) as (e & -> & He).
  exists e; split; [reflexivity|exact He].
Qed.

Lemma elementwise_fails_iff op (a b : Vector) :
  fails_with DimensionMismatch (elementwise op a b) <-> dim a <> dim b.
Proof.
  split; [|apply elementwise_mismatch].
  intros (e & He & Hm) E. unfold elementwise in He.
  rewrite check_compatibility_same in He by exact E. cbn [bind] in He.
  destruct (Vector_ctor (dim a)) as [r|e'|] eqn:C; cbn [bind] in He.
  - match type of He with
    | bind ?loop _ = _ => destruct loop as [d|e'|] eqn:F
    end; cbn [bind] in He; try discriminate.
    revert F. apply for_loop_never_throws. intros i rd e0.
    unfold subscript.
    destruct (nth_error (data a) i); cbn [bind]; [|discriminate].
    destruct (nth_error (data b) i); cbn [bind]; [|discriminate].
    apply assign_never_throws.
  - injection He as ->.
    exact (mismatch_is_not_invalid e (Vector_ctor_throws _ _ C) Hm).
  - discriminate.
Qed.

Lemma dot_product_ok (a b : Vector) :
  length (data a) = length (data b) -> dim a = dim b ->
  dot_product a b = Ret (dot_from Float32.zero (data a) (data b)).
Proof.
  intros L E. unfold dot_product.
  rewrite check_compatibility_same by exact E. cbn [bind].
  now rewrite (dot_product_loop (data a) (data b) (length (data a)) 0).
Qed.

Lemma dot_product_fails_iff (a b : Vector) :
  fails_with DimensionMismatch (dot_product a b) <-> dim a <> dim b.
Proof.
  split.
  - intros (e & He & _) E. unfold dot_product in He.
    rewrite check_compatibility_same in He by exact E. cbn [bind] in He.
    revert He. apply for_loop_never_throws. intros i sum e0.
    unfold subscript.
    destruct (nth_error (data a) i); cbn [bind]; [|discriminate].
    destruct (nth_error (data b) i); cbn [bind]; discriminate.
  - intros H. unfold dot_product.
    destruct (check_compatibility_differ a b H) as (e & -> & He).
    exists e; split; [reflexivity|exact He].
Qed.

(** C4. For all vectors [a] and [b], each of [a + b], [a - b], [a * b] and
    [dot_product] fails with the DimensionMismatch error exactly when the
    dimensions differ. For valid vectors of equal dimension the three
    operators return a vector of that dimension whose i-th element is the
    single-precision sum, difference or product of the i-th elements of
    [a] and [b], and [dot_product] returns the sum of the products
    accumulated from left to right, starting from [0.0f]. *)
Theorem binary_operations_spec (a b : Vector) :
  (fails_with DimensionMismatch (operator_plus a b) <-> dim a <> dim b) /\
  (fails_with DimensionMismatch (operator_minus a b) <-> dim a <> dim b) /\
  (fails_with DimensionMismatch (operator_times a b) <-> dim a <> dim b) /\
  (fails_with DimensionMismatch (dot_product a b) <-> dim a <> dim b) /\
  (valid a -> valid b -> dim a = dim b ->
   (exists r, operator_plus a b = Ret r /\ elementwise_result Float32.add a b r) /\
   (exists r, operator_minus a b = Ret r /\ elementwise_result Float32.sub a b r) /\
   (exists r, operator_times a b = Ret r /\ elementwise_result Float32.mul a b r) /\
   dot_product a b = Ret (dot_from Float32.zero (data a) (data b))).
Proof.
  repeat (split; [now apply elementwise_fails_iff|]).
  split; [now apply dot_product_fails_iff|].
  intros Ha Hb E.
  assert (L : length (data a) = length (data b)).
  { destruct Ha as [_ La], Hb as [_ Lb]. now rewrite La, Lb, E. }
  assert (R : forall op,
             exists r, elementwise op a b = Ret r /\ elementwise_result op a b r).
  { intros op. eexists; split; [now apply elementwise_ok|].
    unfold elementwise_result; cbn [dim data]. split; [reflexivity|].
    split; [now apply zip_with_length|]. intros i x y. apply zip_with_nth. }
  repeat (split; [apply R|]). now apply dot_product_ok.
Qed.

Lemma binary_operations_spec_witness :
  operator_plus v123 v456
  = Ret (mkVector 0 3 0 [0x40A00000; 0x40E00000; 0x41100000]) /\
  dot_product v123 v456 = Ret 0x42000000.
Proof.
  assert (V1 : valid v123) by (unfold valid, VECTOR_MAX_DIM; cbn; lia).
  assert (V2 : valid v456) by (unfold valid, VECTOR_MAX_DIM; cbn; lia).
  destruct (binary_operations_spec v123 v456) as (_ & _ & _ & _ & H).
  destruct (H V1 V2 eq_refl) as ((r & Hr & _) & _ & _ & Hd).
  split; [reflexivity|exact Hd].
Defined.

(** C10. When both operands have dimension 0, as a default-constructed or
    moved-from vector has, [a + b], [a - b] and [a * b] pass the
    compatibility check and then fail while constructing the result, with
    the InvalidDimension error "vector must have at least 1 dimension",
    which is not a DimensionMismatch error. *)
Theorem elementwise_on_empty_vectors (a b : Vector) :
  dim a = 0 -> dim b = 0 ->
  operator_plus a b = Throw at_least_one_dimension /\
  operator_minus a b = Throw at_least_one_dimension /\
  operator_times a b = Throw at_least_one_dimension /\
  InvalidDimension at_least_one_dimension /\
  ~ DimensionMismatch at_least_one_dimension /\
  dim Vector_default = 0 /\
  (forall v, dim (snd (Vector_move v)) = 0).
Proof.
  intros Ha Hb.
  assert (R : forall op, elementwise op a b = Throw at_least_one_dimension).
  { intros op. unfold elementwise.
    rewrite check_compatibility_same by congruence. cbn [bind].
    rewrite Vector_ctor_too_small by lia. reflexivity. }
  repeat (split; [apply R|]).
  split; [now left|].
  split; [apply mismatch_is_not_invalid; now left|].
  split; [reflexivity|]. intros v; reflexivity.
Qed.

Lemma elementwise_on_empty_vectors_witness :
  operator_plus Vector_default (snd (Vector_move v123))
  = Throw at_least_one_dimension.
Proof.
  apply (elementwise_on_empty_vectors Vector_default (snd (Vector_move v123)));
    reflexivity.
Defined.

(* ================================================================= *)
(** ** Norms and cosine similarity *)

Lemma sum_of_squares_zero (l : list Float32.float) :
  Forall (fun x => exists s, Float32.to_SF x = S754_zero s) l ->
  fold_left (fun sum val => Float32.add sum (Float32.mul val val)) l Float32.zero
  = Float32.zero.
Proof.
  induction 1 as [|x l [s Hx] _ IH]; [reflexivity|].
  cbn [fold_left].
  replace (Float32.add Float32.zero (Float32.mul x x)) with Float32.zero;
    [exact IH|].
  unfold Float32.add, Float32.mul. rewrite Hx. now destruct s.
Qed.

Lemma l2_norm_zero_vector (v : Vector) :
  is_zero_vector v -> l2_norm v = Float32.zero.
Proof.
  intros H. unfold l2_norm. now rewrite sum_of_squares_zero.
Qed.

(** C5. For vectors [a] and [b] of equal dimension, [cosine_similarity]
    returns exactly [+0.0f] (not a NaN) as soon as one of the two L2 norms
    compares equal to zero, in particular when [a] or [b] is a zero vector;
    when neither norm is zero it returns the dot product divided by the
    product of the norms. *)
Theorem cosine_similarity_spec (a b : Vector) :
  well_formed a -> well_formed b -> dim a = dim b ->
  exists dot,
    dot_product a b = Ret dot /\
    (Float32.eqb (l2_norm a) Float32.zero = true \/
     Float32.eqb (l2_norm b) Float32.zero = true ->
     cosine_similarity a b = Ret Float32.zero) /\
    (Float32.eqb (l2_norm a) Float32.zero = false ->
     Float32.eqb (l2_norm b) Float32.zero = false ->
     cosine_similarity a b
     = Ret (Float32.div dot (Float32.mul (l2_norm a) (l2_norm b)))) /\
    (is_zero_vector a \/ is_zero_vector b ->
     cosine_similarity a b = Ret Float32.zero) /\
    Float32.to_SF Float32.zero = S754_zero false /\
    Float32.is_nan Float32.zero = false.
Proof.
  intros [_ La] [_ Lb] E.
  assert (D : dot_product a b = Ret (dot_from Float32.zero (data a) (data b))).
  { apply dot_product_ok; [|exact E]. now rewrite La, Lb, E. }
  exists (dot_from Float32.zero (data a) (data b)).
  split; [exact D|].
  assert (Z0 : Float32.eqb (l2_norm a) Float32.zero = true \/
               Float32.eqb (l2_norm b) Float32.zero = true ->
               cosine_similarity a b = Ret Float32.zero).
  { intros H. unfold cosine_similarity. rewrite D. cbn [bind].
    destruct H as [-> | ->]; [reflexivity|].
    now rewrite orb_true_r. }
  split; [exact Z0|]. split.
  - intros Na Nb. unfold cosine_similarity. rewrite D. cbn [bind].
    now rewrite Na, Nb.
  - split; [|split; reflexivity].
    intros [H|H]; apply Z0; [left|right];
      now rewrite (l2_norm_zero_vector _ H).
Qed.

Lemma cosine_similarity_spec_witness :
  cosine_similarity (mkVector 0 3 0 [0; 0x80000000; 0]) v123
  = Ret Float32.zero.
Proof.
  destruct (cosine_similarity_spec (mkVector 0 3 0 [0; 0x80000000; 0]) v123)
    as (dot & _ & H & _).
  - unfold well_formed; cbn; lia.
  - unfold well_formed; cbn; lia.
  - reflexivity.
  - apply H. left. reflexivity.
Defined.

(* ================================================================= *)
(** ** Comparison of floats *)

Lemma SFcompare_antisym (x y : spec_float) :
  SFcompare y x = option_map CompOpp (SFcompare x y).
Proof.
  destruct x as [[|]|[|]| |[|] m1 e1], y as [[|]|[|]| |[|] m2 e2];
    try reflexivity; cbn [SFcompare option_map];
    change (Pos.compare_cont Eq m1 m2) with (Pos.compare m1 m2);
    change (Pos.compare_cont Eq m2 m1) with (Pos.compare m2 m1);
    rewrite (Z.compare_antisym e1 e2), (Pos.compare_antisym m1 m2);
    destruct (e1 ?= e2); cbn [CompOpp]; try reflexivity;
    destruct (Pos.compare m1 m2); reflexivity.
Qed.

Lemma eqb_not_ltb (x y : Float32.float) :
  Float32.eqb x y = true -> Float32.ltb x y = false /\ Float32.gtb x y = false.
Proof.
  unfold Float32.eqb, Float32.ltb, Float32.gtb, SFeqb, SFltb.
  rewrite (SFcompare_antisym (Float32.to_SF x) (Float32.to_SF y)).
  destruct (SFcompare (Float32.to_SF x) (Float32.to_SF y)) as [[| |]|];
    try discriminate. now split.
Qed.

Lemma ltb_irrefl (x : Float32.float) : Float32.ltb x x = false.
Proof.
  unfold Float32.ltb, SFltb.
  pose proof (SFcompare_antisym (Float32.to_SF x) (Float32.to_SF x)) as H.
  destruct (SFcompare (Float32.to_SF x) (Float32.to_SF x)) as [[| |]|];
    try reflexivity; discriminate.
Qed.

Lemma SFltb_key (x y : spec_float) :
  x <> S754_nan -> y <> S754_nan ->
  SFltb x y = key_ltb (SF_key x) (SF_key y).
Proof.
  intros Hx Hy.
  destruct x as [[|]|[|]| |[|] m1 e1], y as [[|]|[|]| |[|] m2 e2];
    try reflexivity; try contradiction;
    unfold SFltb, SFcompare, SF_key, key_ltb;
    change (Pos.compare_cont Eq m1 m2) with (Pos.compare m1 m2);
    destruct (Z.compare_spec e1 e2); destruct (Pos.compare_spec m1 m2);
    cbn [CompOpp]; decide_Z_tests.
Qed.

Lemma key_ltb_irrefl k : key_ltb k k = false.
Proof. destruct k as [[a b] c]. unfold key_ltb. decide_Z_tests. Qed.

Lemma key_ltb_trans k1 k2 k3 :
  key_ltb k1 k2 = true -> key_ltb k2 k3 = true -> key_ltb k1 k3 = true.
Proof.
  destruct k1 as [[a1 b1] c1], k2 as [[a2 b2] c2], k3 as [[a3 b3] c3].
  unfold key_ltb. intros H12 H23. revert H12 H23.
  decide_Z_tests; intros; try discriminate; decide_Z_tests.
Qed.

Lemma key_ltb_total k1 k2 :
  key_ltb k1 k2 = false -> key_ltb k2 k1 = false -> k1 = k2.
Proof.
  destruct k1 as [[a1 b1] c1], k2 as [[a2 b2] c2].
  unfold key_ltb. intros H12 H21. revert H12 H21.
  decide_Z_tests; intros; try discriminate;
    repeat f_equal; lia.
Qed.

Lemma gtb_not_ltb (x y : Float32.float) :
  Float32.gtb x y = true -> Float32.ltb x y = false.
Proof.
  unfold Float32.ltb, Float32.gtb, SFltb.
  rewrite (SFcompare_antisym (Float32.to_SF x) (Float32.to_SF y)).
  destruct (SFcompare (Float32.to_SF x) (Float32.to_SF y)) as [[| |]|];
    try discriminate; reflexivity.
Qed.

(* ================================================================= *)
(** ** [operator<] *)

(** The index loop of [operator<] is the recursion [list_lt]. *)
Lemma lt_loop_list (a b : list Float32.float) :
  forall n i,
    (i + n = Nat.min (length a) (length b))%nat ->
    lt_loop n i a b (Ret (Z.of_nat (length a) <? Z.of_nat (length b)))
    = Ret (list_lt (skipn i a) (skipn i b)).
Proof.
  induction n as [|n IH]; intros i Hi; cbn [lt_loop].
  - f_equal.
    pose proof (length_skipn i a) as La. pose proof (length_skipn i b) as Lb.
    destruct (skipn i a) as [|x ta], (skipn i b) as [|y tb];
      cbn [length] in La, Lb; cbn [list_lt].
    + apply Z.ltb_ge. lia.
    + apply Z.ltb_lt. lia.
    + apply Z.ltb_ge. lia.
    + lia.
  - destruct (subscript_in_range a i) as [x Hx]; [lia|].
    destruct (subscript_in_range b i) as [y Hy]; [lia|].
    unfold subscript. rewrite Hx, Hy. cbn [bind].
    rewrite (subscript_skipn a i x Hx), (subscript_skipn b i y Hy).
    cbn [list_lt].
    destruct (Float32.ltb x y); [reflexivity|].
    destruct (Float32.gtb x y); [reflexivity|].
    apply IH. lia.
Qed.

Lemma operator_lt_list (a b : Vector) :
  well_formed a -> well_formed b ->
  operator_lt a b = Ret (list_lt (data a) (data b)).
Proof.
  intros [Pa La] [Pb Lb]. unfold operator_lt.
  rewrite Z2Nat.inj_min, <- La, <- Lb.
  replace (dim a) with (Z.of_nat (length (data a))) by lia.
  replace (dim b) with (Z.of_nat (length (data b))) by lia.
  now rewrite (lt_loop_list (data a) (data b) _ 0).
Qed.

Lemma equal_before_tail i u v (a b : list Float32.float) :
  equal_before (S i) (u :: a) (v :: b) ->
  Float32.eqb u v = true /\ equal_before i a b.
Proof.
  intros H. split.
  - apply (H 0%nat); [lia|reflexivity|reflexivity].
  - intros j x y Hj Hx Hy. apply (H (S j)); [lia|exact Hx|exact Hy].
Qed.

Lemma list_lt_first_less (i : nat) :
  forall a b x y,
    equal_before i a b ->
    nth_error a i = Some x -> nth_error b i = Some y ->
    Float32.ltb x y = true -> list_lt a b = true.
Proof.
  induction i as [|i IH]; intros [|u a] [|v b] x y He Hx Hy Hlt;
    try discriminate; cbn in Hx, Hy; cbn [list_lt].
  - injection Hx as ->. injection Hy as ->. now rewrite Hlt.
  - destruct (equal_before_tail _ _ _ _ _ He) as [Huv He'].
    destruct (eqb_not_ltb _ _ Huv) as [-> ->]. eapply IH; eauto.
Qed.

Lemma list_lt_first_greater (i : nat) :
  forall a b x y,
    equal_before i a b ->
    nth_error a i = Some x -> nth_error b i = Some y ->
    Float32.gtb x y = true -> list_lt a b = false.
Proof.
  induction i as [|i IH]; intros [|u a] [|v b] x y He Hx Hy Hgt;
    try discriminate; cbn in Hx, Hy; cbn [list_lt].
  - injection Hx as ->. injection Hy as ->.
    now rewrite (gtb_not_ltb _ _ Hgt), Hgt.
  - destruct (equal_before_tail _ _ _ _ _ He) as [Huv He'].
    destruct (eqb_not_ltb _ _ Huv) as [-> ->]. eapply IH; eauto.
Qed.

Lemma list_lt_all_equal :
  forall a b,
    equal_before (Nat.min (length a) (length b)) a b ->
    list_lt a b = (Z.of_nat (length a) <? Z.of_nat (length b)).
Proof.
  induction a as [|u a IH]; intros [|v b] He; cbn [list_lt length].
  - reflexivity.
  - symmetry. apply Z.ltb_lt. lia.
  - symmetry. apply Z.ltb_ge. lia.
  - cbn [length Nat.min] in He.
    destruct (equal_before_tail _ _ _ _ _ He) as [Huv He'].
    destruct (eqb_not_ltb _ _ Huv) as [-> ->]. rewrite (IH b He').
    destruct (Z.ltb_spec (Z.of_nat (length a)) (Z.of_nat (length b)));
      symmetry; [apply Z.ltb_lt|apply Z.ltb_ge]; lia.
Qed.

(** C6. [operator<] is lexicographic on the first [min(a.dim, b.dim)]
    elements: at the first index [i] whose elements do not compare equal,
    [a[i] < b[i]] makes [a < b] true and [a[i] > b[i]] makes it false; when
    all the compared elements are equal the result is [a.dim < b.dim], so
    the shorter vector sorts first. In particular [[1,2] < [2,1]] and
    [[1,2] < [1,2,0]], while [[1,2] < [1,2]] is false. *)
Theorem operator_lt_lexicographic (a b : Vector) :
  well_formed a -> well_formed b ->
  (forall i x y,
      equal_before i (data a) (data b) ->
      nth_error (data a) i = Some x -> nth_error (data b) i = Some y ->
      (Float32.ltb x y = true -> operator_lt a b = Ret true) /\
      (Float32.gtb x y = true -> operator_lt a b = Ret false)) /\
  (equal_before (Z.to_nat (Z.min (dim a) (dim b))) (data a) (data b) ->
   operator_lt a b = Ret (dim a <? dim b)) /\
  operator_lt (mkVector 0 2 0 [0x3F800000; 0x40000000])
              (mkVector 0 2 0 [0x40000000; 0x3F800000]) = Ret true /\
  operator_lt (mkVector 0 2 0 [0x3F800000; 0x40000000])
              (mkVector 0 3 0 [0x3F800000; 0x40000000; 0]) = Ret true /\
  operator_lt (mkVector 0 2 0 [0x3F800000; 0x40000000])
              (mkVector 0 2 0 [0x3F800000; 0x40000000]) = Ret false.
Proof.
  intros Wa Wb. rewrite (operator_lt_list a b Wa Wb).
  destruct Wa as [Pa La], Wb as [Pb Lb].
  split; [|split; [|repeat split]].
  - intros i x y He Hx Hy. split; intros H; f_equal.
    + eapply list_lt_first_less; eauto.
    + eapply list_lt_first_greater; eauto.
  - rewrite Z2Nat.inj_min, <- La, <- Lb. intros He. f_equal.
    rewrite (list_lt_all_equal _ _ He).
    replace (dim a) with (Z.of_nat (length (data a))) by lia.
    replace (dim b) with (Z.of_nat (length (data b))) by lia.
    reflexivity.
Qed.

Lemma operator_lt_lexicographic_witness :
  operator_lt (mkVector 0 3 0 [0x3F800000; 0x40000000; 0x40400000])
              (mkVector 0 4 0 [0x3F800000; 0x40000000; 0x40A00000; 0])
  = Ret true.
Proof.
  refine (proj1
            (proj1 (operator_lt_lexicographic
                      (mkVector 0 3 0 [0x3F800000; 0x40000000; 0x40400000])
                      (mkVector 0 4 0 [0x3F800000; 0x40000000; 0x40A00000; 0])
                      _ _)
                   2%nat 0x40400000 0x40A00000 _ _ _) _).
  - unfold well_formed; cbn; lia.
  - unfold well_formed; cbn; lia.
  - intros [|[|j]] u v Hj Hu Hv; cbn in Hu, Hv.
    + injection Hu as <-. injection Hv as <-. reflexivity.
    + injection Hu as <-. injection Hv as <-. reflexivity.
    + lia.
  - reflexivity.
  - reflexivity.
  - reflexivity.
Defined.

(* ================================================================= *)
(** ** The order induced by [operator<] *)

Lemma key_list_lt_irrefl (a : list (Z * Z * Z)) : key_list_lt a a = false.
Proof.
  induction a as [|x a IH]; [reflexivity|].
  cbn [key_list_lt]. now rewrite key_ltb_irrefl.
Qed.

Lemma key_list_lt_trans :
  forall a b c,
    key_list_lt a b = true -> key_list_lt b c = true -> key_list_lt a c = true.
Proof.
  induction a as [|x a IH]; intros [|y b] [|z c] Hab Hbc;
    cbn [key_list_lt] in *; try discriminate; try reflexivity.
  destruct (key_ltb x y) eqn:Exy.
  - destruct (key_ltb y z) eqn:Eyz.
    + now rewrite (key_ltb_trans _ _ _ Exy Eyz).
    + destruct (key_ltb z y) eqn:Ezy; [discriminate|].
      rewrite <- (key_ltb_total _ _ Eyz Ezy). now rewrite Exy.
  - destruct (key_ltb y x) eqn:Eyx; [discriminate|].
    rewrite (key_ltb_total _ _ Exy Eyx).
    destruct (key_ltb y z); [reflexivity|].
    destruct (key_ltb z y); [discriminate|].
    now apply (IH b c).
Qed.

Lemma key_list_lt_total :
  forall a b, key_list_lt a b = false -> key_list_lt b a = false -> a = b.
Proof.
  induction a as [|x a IH]; intros [|y b] Hab Hba;
    cbn [key_list_lt] in *; try discriminate; try reflexivity.
  destruct (key_ltb x y) eqn:Exy; [discriminate|].
  destruct (key_ltb y x) eqn:Eyx; [discriminate|].
  f_equal; [now apply key_ltb_total|now apply IH].
Qed.

Lemma not_nan_to_SF (x : Float32.float) :
  Float32.is_nan x = false -> Float32.to_SF x <> S754_nan.
Proof.
  unfold Float32.is_nan. intros H E. rewrite E in H. discriminate.
Qed.

Lemma list_lt_keys (a b : list Float32.float) :
  Forall (fun x => Float32.is_nan x = false) a ->
  Forall (fun x => Float32.is_nan x = false) b ->
  list_lt a b
  = key_list_lt (map (fun x => SF_key (Float32.to_SF x)) a)
                (map (fun x => SF_key (Float32.to_SF x)) b).
Proof.
  intros Ha. revert b.
  induction Ha as [|x a Hx _ IH]; intros b Hb;
    destruct Hb as [|y b Hy Hb]; cbn [list_lt key_list_lt map];
    try reflexivity.
  unfold Float32.ltb, Float32.gtb.
  rewrite !SFltb_key by (apply not_nan_to_SF; assumption).
  now rewrite (IH b Hb).
Qed.

Lemma vector_lt_keys (a b : Vector) :
  well_formed a -> nan_free a -> well_formed b -> nan_free b ->
  operator_lt a b = Ret (key_list_lt (keys a) (keys b)).
Proof.
  intros Wa Na Wb Nb. rewrite operator_lt_list by assumption.
  unfold keys. now rewrite list_lt_keys.
Qed.

(** C7, as the code has it. On well-formed vectors without NaN elements,
    of equal or different dimensions, [operator<] always returns and is a
    strict weak ordering: irreflexive, transitive, and with a transitive
    incomparability relation. *)
Theorem operator_lt_strict_weak_order :
  strict_weak_order (fun v => well_formed v /\ nan_free v) /\
  (forall a b, well_formed a -> well_formed b -> succeeds (operator_lt a b)).
Proof.
  assert (K : forall a b,
             well_formed a /\ nan_free a -> well_formed b /\ nan_free b ->
             (vector_lt a b <-> key_list_lt (keys a) (keys b) = true)).
  { intros a b [Wa Na] [Wb Nb]. unfold vector_lt.
    rewrite vector_lt_keys by assumption. split; congruence. }
  assert (I : forall a b,
             well_formed a /\ nan_free a -> well_formed b /\ nan_free b ->
             (incomparable a b <-> keys a = keys b)).
  { intros a b Pa Pb. unfold incomparable.
    rewrite (K a b Pa Pb), (K b a Pb Pa). split.
    - intros [H1 H2]. apply key_list_lt_total;
        [destruct (key_list_lt (keys a) (keys b))
        |destruct (key_list_lt (keys b) (keys a))]; congruence.
    - intros ->. rewrite key_list_lt_irrefl. split; discriminate. }
  split; [split; [|split]|].
  - intros a Pa. rewrite (K a a Pa Pa), key_list_lt_irrefl. discriminate.
  - intros a b c Pa Pb Pc. rewrite (K a b Pa Pb), (K b c Pb Pc), (K a c Pa Pc).
    apply key_list_lt_trans.
  - intros a b c Pa Pb Pc Hab Hbc.
    apply (I a b Pa Pb) in Hab. apply (I b c Pb Pc) in Hbc.
    apply (I a c Pa Pc). congruence.
  - intros a b Wa Wb. rewrite operator_lt_list by assumption.
    eexists; reflexivity.
Qed.

Lemma operator_lt_strict_weak_order_witness :
  vector_lt v123 v456 /\ ~ vector_lt v456 v123 /\ ~ vector_lt v123 v123.
Proof.
  assert (P1 : well_formed v123 /\ nan_free v123).
  { split; [unfold well_formed; cbn; lia|]. repeat constructor. }
  assert (P2 : well_formed v456 /\ nan_free v456).
  { split; [unfold well_formed; cbn; lia|]. repeat constructor. }
  destruct operator_lt_strict_weak_order as [(Irr & Tr & _) _].
  split; [reflexivity|]. split.
  - intros H. apply (Irr v123 P1).
    apply (Tr v123 v456 v123 P1 P2 P1); [reflexivity|exact H].
  - apply (Irr v123 P1).
Defined.

(** C7, as stated, fails on the code: with [a = [1]], [n = [NaN]] and
    [c = [2]], [a] and [n] are incomparable, [n] and [c] are incomparable,
    and yet [a < c]; so with NaN elements the incomparability relation of
    [operator<] is not transitive and the order is not a strict weak
    ordering. *)
Lemma operator_lt_nan_not_strict_weak :
  Float32.to_SF f_nan = S754_nan /\
  incomparable (single f_one) (single f_nan) /\
  incomparable (single f_nan) (single f_two) /\
  vector_lt (single f_one) (single f_two) /\
  ~ strict_weak_order well_formed.
Proof.
  assert (W : forall x, well_formed (single x)).
  { intros x. unfold well_formed; cbn; lia. }
  assert (I1 : incomparable (single f_one) (single f_nan)).
  { split; intros H; discriminate H. }
  assert (I2 : incomparable (single f_nan) (single f_two)).
  { split; intros H; discriminate H. }
  split; [reflexivity|]. split; [exact I1|]. split; [exact I2|].
  split; [reflexivity|].
  intros (_ & _ & T).
  destruct (T _ _ _ (W _) (W _) (W _) I1 I2) as [H _].
  apply H. reflexivity.
Qed.

(* ================================================================= *)
(** ** Object representations *)

Lemma Z_of_byte_of_Z (z : Z) : Z_of_byte (byte_of_Z z) = z mod 256.
Proof.
  unfold Z_of_byte, byte_of_Z.
  pose proof (Z.mod_pos_bound z 256 ltac:(lia)) as B.
  destruct (Byte.of_N (Z.to_N (z mod 256))) as [b|] eqn:E.
  - apply Byte.to_of_N in E. rewrite E. lia.
  - apply Byte.of_N_None_iff in E. lia.
Qed.

Lemma le_bytes_length (n : nat) : forall z, length (le_bytes n z) = n.
Proof.
  induction n as [|n IH]; intros z; cbn [le_bytes length]; [reflexivity|].
  now rewrite IH.
Qed.

Lemma le_value_le_bytes (n : nat) :
  forall z, le_value (le_bytes n z) = z mod 2 ^ (8 * Z.of_nat n).
Proof.
  induction n as [|n IH]; intros z; cbn [le_bytes le_value].
  - cbn. now rewrite Z.mod_1_r.
  - rewrite Z_of_byte_of_Z, IH.
    replace (8 * Z.of_nat (S n)) with (8 + 8 * Z.of_nat n) by lia.
    rewrite Z.pow_add_r by lia.
    change (2 ^ 8) with 256.
    rewrite Z.rem_mul_r by lia. reflexivity.
Qed.

Lemma object_bytes_length host (n : nat) (z : Z) :
  length (object_bytes host n z) = n.
Proof.
  unfold object_bytes, in_host_order.
  destruct host; [|rewrite length_rev]; apply le_bytes_length.
Qed.

Lemma unsigned_value_object_bytes host (n : nat) (z : Z) :
  unsigned_value host (object_bytes host n z) = z mod 2 ^ (8 * Z.of_nat n).
Proof.
  unfold unsigned_value, object_bytes, in_host_order.
  destruct host; [|rewrite rev_involutive]; apply le_value_le_bytes.
Qed.

Lemma int32_round_trip host (z : Z) :
  int32_range z ->
  signed_value host (object_bytes host sizeof_int32 z) = z.
Proof.
  unfold int32_range, signed_value. intros R.
  rewrite unsigned_value_object_bytes, object_bytes_length.
  change (8 * Z.of_nat sizeof_int32) with 32.
  change (2 ^ (32 - 1)) with 2147483648 in *.
  change (2 ^ 31) with 2147483648 in *.
  change (2 ^ 32) with 4294967296 in *.
  destruct (Z.ltb_spec (z mod 4294967296) 2147483648);
    Z.div_mod_to_equations; lia.
Qed.

Lemma int16_round_trip host (z : Z) :
  int16_range z ->
  signed_value host (object_bytes host sizeof_int16 z) = z.
Proof.
  unfold int16_range, signed_value. intros R.
  rewrite unsigned_value_object_bytes, object_bytes_length.
  change (8 * Z.of_nat sizeof_int16) with 16.
  change (2 ^ (16 - 1)) with 32768 in *.
  change (2 ^ 15) with 32768 in *.
  change (2 ^ 16) with 65536 in *.
  destruct (Z.ltb_spec (z mod 65536) 32768);
    Z.div_mod_to_equations; lia.
Qed.

Lemma float_round_trip host (x : Float32.float) :
  Float32.is_float x ->
  unsigned_value host (object_bytes host sizeof_float x) = x.
Proof.
  unfold Float32.is_float. intros R.
  rewrite unsigned_value_object_bytes.
  change (8 * Z.of_nat sizeof_float) with 32.
  apply Z.mod_small. exact R.
Qed.

Lemma chunks_flat_map host (fs : list Float32.float) :
  forall tail,
    chunks sizeof_float (length fs)
           (flat_map (object_bytes host sizeof_float) fs ++ tail)
    = map (object_bytes host sizeof_float) fs.
Proof.
  induction fs as [|x fs IH]; intros tail; cbn [flat_map length chunks map];
    [reflexivity|].
  rewrite <- app_assoc.
  pose proof (object_bytes_length host sizeof_float x) as L.
  rewrite firstn_app, L, Nat.sub_diag, firstn_O, app_nil_r.
  rewrite firstn_all2 by lia.
  rewrite skipn_app, L, Nat.sub_diag, skipn_O.
  rewrite skipn_all2 by lia.
  cbn [app]. now rewrite IH.
Qed.

Lemma flat_map_object_bytes_length host (fs : list Float32.float) :
  length (flat_map (object_bytes host sizeof_float) fs)
  = (length fs * sizeof_float)%nat.
Proof.
  induction fs as [|x fs IH]; [reflexivity|].
  cbn [flat_map length]. rewrite length_app, object_bytes_length, IH.
  unfold sizeof_float. lia.
Qed.

Lemma floats_round_trip host (fs : list Float32.float) :
  Forall Float32.is_float fs ->
  map (unsigned_value host) (map (object_bytes host sizeof_float) fs) = fs.
Proof.
  induction 1 as [|x fs Hx _ IH]; [reflexivity|].
  cbn [map]. now rewrite float_round_trip, IH.
Qed.

(* ================================================================= *)
(** ** [memcpy] into and out of a buffer *)

Lemma write_at_app (pre rest src : list byte) (pos : nat) :
  pos = length pre -> (length src <= length rest)%nat ->
  write_at (pre ++ rest) pos src
  = Ret (pre ++ src ++ skipn (length src) rest).
Proof.
  intros -> H. unfold write_at. rewrite length_app.
  destruct (Nat.leb_spec (length pre + length src) (length pre + length rest));
    [|lia].
  rewrite firstn_app, Nat.sub_diag, firstn_O, app_nil_r, firstn_all.
  rewrite skipn_app.
  replace (length pre + length src - length pre)%nat with (length src) by lia.
  rewrite skipn_all2 by lia. reflexivity.
Qed.

Lemma read_at_app (pre src rest : list byte) (pos n : nat) :
  pos = length pre -> n = length src ->
  read_at (pre ++ src ++ rest) pos n = Ret src.
Proof.
  intros -> ->. unfold read_at. rewrite !length_app.
  destruct (Nat.leb_spec (length pre + length src)
                         (length pre + (length src + length rest))); [|lia].
  rewrite skipn_app, Nat.sub_diag, skipn_O, skipn_all, app_nil_l.
  rewrite firstn_app, Nat.sub_diag, firstn_O, app_nil_r, firstn_all.
  reflexivity.
Qed.

Lemma read_at_short (buf : list byte) (pos n : nat) :
  (length buf < pos + n)%nat -> read_at buf pos n = Undefined.
Proof.
  intros H. unfold read_at.
  destruct (Nat.leb_spec (pos + n) (length buf)); [lia|reflexivity].
Qed.

Lemma read_at_long (buf : list byte) (pos n : nat) :
  (pos + n <= length buf)%nat ->
  read_at buf pos n = Ret (firstn n (skipn pos buf)).
Proof.
  intros H. unfold read_at.
  destruct (Nat.leb_spec (pos + n) (length buf)); [reflexivity|lia].
Qed.

(* ================================================================= *)
(** ** Binary I/O *)

Lemma image_length host (v : Vector) :
  length (image host v) = (8 + 4 * length (data v))%nat.
Proof.
  unfold image.
  rewrite !length_app, !object_bytes_length, flat_map_object_bytes_length.
  unfold sizeof_int32, sizeof_int16, sizeof_float. lia.
Qed.

(** [serialize] overwrites the first [8 + 4 * dim] bytes of the buffer with
    the image of the vector and leaves the rest as it was. *)
Lemma serialize_layout host (v : Vector) (buffer : list byte) :
  well_formed v ->
  (8 + 4 * length (data v) <= length buffer)%nat ->
  serialize host v buffer
  = Ret (image host v ++ skipn (8 + 4 * length (data v)) buffer).
Proof.
  intros [P L] Hlen. unfold serialize, image. cbv zeta.
  set (s1 := object_bytes host sizeof_int32 (vl_len_ v)).
  set (s2 := object_bytes host sizeof_int16 (dim v)).
  set (s3 := object_bytes host sizeof_int16 (unused v)).
  set (p := flat_map (object_bytes host sizeof_float) (data v)).
  assert (L1 : length s1 = 4%nat) by apply object_bytes_length.
  assert (L2 : length s2 = 2%nat) by apply object_bytes_length.
  assert (L3 : length s3 = 2%nat) by apply object_bytes_length.
  assert (Lp : length p = (4 * length (data v))%nat).
  { unfold p. rewrite flat_map_object_bytes_length. unfold sizeof_float. lia. }
  assert (A : array_bytes host (dim v) (data v) = Ret p).
  { unfold array_bytes.
    destruct (Z.leb_spec 0 (dim v)); [|lia].
    destruct (Z.leb_spec (dim v) (Z.of_nat (length (data v)))); [|lia].
    cbn [andb]. rewrite <- L, firstn_all. reflexivity. }
  assert (W1 : write_at buffer 0 s1 = Ret (s1 ++ skipn (length s1) buffer)).
  { apply (write_at_app [] buffer s1 0); [reflexivity|lia]. }
  rewrite W1. cbn [bind].
  rewrite (write_at_app s1 (skipn (length s1) buffer) s2)
    by (rewrite ?length_skipn; unfold sizeof_int32; cbn; lia).
  cbn [bind]. rewrite (app_assoc s1 s2).
  rewrite (write_at_app (s1 ++ s2) _ s3)
    by (rewrite ?length_skipn, ?length_app;
        unfold sizeof_int32, sizeof_int16; cbn; lia).
  cbn [bind]. rewrite A. cbn [bind]. rewrite (app_assoc (s1 ++ s2) s3).
  rewrite (write_at_app ((s1 ++ s2) ++ s3) _ p)
    by (rewrite ?length_skipn, ?length_app;
        unfold sizeof_int32, sizeof_int16; cbn; lia).
  rewrite !skipn_skipn, L1, L2, L3, Lp.
  rewrite <- !app_assoc.
  replace (4 * length (data v) + 2 + 2 + 4)%nat
    with (8 + 4 * length (data v))%nat by lia.
  reflexivity.
Qed.

(** Decoding a buffer that starts with the image of a valid vector. *)
Lemma deserialize_image host (v : Vector) (tail : list byte) :
  valid v -> representable v ->
  deserialize host (image host v ++ tail) = Ret v.
Proof.
  intros [R L] (Rl & Rd & Ru & Rf).
  destruct v as [vl d u fs]; cbn [vl_len_ dim unused data] in *.
  unfold image; cbn [vl_len_ dim unused data].
  set (s1 := object_bytes host sizeof_int32 vl).
  set (s2 := object_bytes host sizeof_int16 d).
  set (s3 := object_bytes host sizeof_int16 u).
  set (p := flat_map (object_bytes host sizeof_float) fs).
  set (B := (s1 ++ s2 ++ s3 ++ p) ++ tail).
  assert (L1 : length s1 = 4%nat) by apply object_bytes_length.
  assert (L2 : length s2 = 2%nat) by apply object_bytes_length.
  assert (L3 : length s3 = 2%nat) by apply object_bytes_length.
  assert (Lp : length p = (Z.to_nat d * sizeof_float)%nat).
  { unfold p. now rewrite flat_map_object_bytes_length, L. }
  assert (R1 : read_at B 0 sizeof_int32 = Ret s1).
  { replace B with ([] ++ s1 ++ (s2 ++ s3 ++ p ++ tail))
      by (unfold B; cbn [app]; now rewrite <- !app_assoc).
    apply read_at_app; [reflexivity|now rewrite L1]. }
  assert (R2 : read_at B (0 + sizeof_int32) sizeof_int16 = Ret s2).
  { replace B with (s1 ++ s2 ++ (s3 ++ p ++ tail))
      by (unfold B; now rewrite <- !app_assoc).
    apply read_at_app; [now rewrite L1|now rewrite L2]. }
  assert (R3 : read_at B (0 + sizeof_int32 + sizeof_int16) sizeof_int16
               = Ret s3).
  { replace B with ((s1 ++ s2) ++ s3 ++ (p ++ tail))
      by (unfold B; now rewrite <- !app_assoc).
    apply read_at_app; [now rewrite length_app, L1, L2|now rewrite L3]. }
  assert (R4 : read_at B (0 + sizeof_int32 + sizeof_int16 + sizeof_int16)
                       (Z.to_nat d * sizeof_float) = Ret p).
  { replace B with ((s1 ++ s2 ++ s3) ++ p ++ tail)
      by (unfold B; now rewrite <- !app_assoc).
    apply read_at_app; [now rewrite !length_app, L1, L2, L3|now rewrite Lp]. }
  unfold deserialize. cbv zeta. rewrite R1. cbn [bind]. rewrite R2. cbn [bind].
  rewrite R3. cbn [bind].
  unfold s1, s2, s3.
  rewrite int32_round_trip, !int16_round_trip by assumption.
  rewrite Vector_ctor_ok by exact R. cbn [bind dim data].
  rewrite R4. cbn [bind].
  rewrite <- L. unfold p.
  rewrite <- (app_nil_r (flat_map _ fs)), chunks_flat_map.
  rewrite floats_round_trip by exact Rf.
  unfold array_store. rewrite repeat_length.
  destruct (Nat.leb_spec (length fs) (length fs)); [|lia].
  rewrite skipn_all2 by (rewrite repeat_length; lia).
  now rewrite app_nil_r.
Qed.

(** C1. For every vector [v] whose dimension is in [1, 16000], serializing
    [v] into a buffer that is large enough and deserializing that buffer
    gives back [v] itself: the same [vl_len_], [dim] and [unused] fields,
    whatever their values, and the same elements bit for bit. The bytes of
    the buffer after the image are left untouched. *)
Theorem serialize_deserialize_round_trip
  host (v : Vector) (buffer : list byte) :
  valid v -> representable v ->
  (8 + 4 * Z.to_nat (dim v) <= length buffer)%nat ->
  exists written,
    serialize host v buffer = Ret written /\
    deserialize host written = Ret v /\
    length written = length buffer /\
    firstn (8 + 4 * Z.to_nat (dim v)) written = image host v /\
    skipn (8 + 4 * Z.to_nat (dim v)) written
    = skipn (8 + 4 * Z.to_nat (dim v)) buffer.
Proof.
  intros V Rp Hlen. destruct V as [R L]. rewrite <- L in *.
  assert (W : well_formed v) by (split; [lia|now rewrite L]).
  pose proof (image_length host v) as IL.
  eexists. split; [now apply serialize_layout|].
  split; [apply deserialize_image; [now split|exact Rp]|].
  split; [rewrite length_app, IL, length_skipn; lia|].
  split.
  - rewrite firstn_app, IL, Nat.sub_diag, firstn_O, app_nil_r.
    rewrite <- IL. apply firstn_all.
  - rewrite skipn_app, IL, Nat.sub_diag, skipn_O.
    rewrite <- IL at 1. now rewrite skipn_all.
Qed.

Lemma serialize_deserialize_round_trip_witness :
  exists written,
    serialize BigEndian (mkVector (-7) 3 5 (data v123)) (repeat x00 24)
    = Ret written /\
    deserialize BigEndian written = Ret (mkVector (-7) 3 5 (data v123)).
Proof.
  destruct (serialize_deserialize_round_trip
              BigEndian (mkVector (-7) 3 5 (data v123)) (repeat x00 24))
    as (written & Hs & Hd & _).
  - unfold valid, VECTOR_MAX_DIM; cbn; lia.
  - unfold representable, int32_range, int16_range; cbn.
    repeat split; try lia.
    repeat constructor; unfold Float32.is_float; lia.
  - cbn; lia.
  - exists written. split; [exact Hs|exact Hd].
Defined.

Lemma chunks_length (n count : nat) :
  forall bs, length (chunks n count bs) = count.
Proof.
  induction count as [|c IH]; intros bs; cbn [chunks length]; [reflexivity|].
  now rewrite IH.
Qed.

(** What [deserialize] does on an arbitrary buffer. *)
Lemma deserialize_cases host (buffer : list byte) :
  deserialize host buffer
  = let d := header_dimension host buffer in
    if (length buffer <? 8)%nat then Undefined
    else if d <? 1 then
      Throw (runtime_error "vector must have at least 1 dimension")
    else if d >? 16000 then
      Throw (runtime_error "vector cannot have more than 16000 dimensions")
    else if (length buffer <? 8 + 4 * Z.to_nat d)%nat then Undefined
    else
      Ret (mkVector
             (signed_value host (firstn 4 buffer)) d
             (signed_value host (firstn 2 (skipn 6 buffer)))
             (map (unsigned_value host)
                  (chunks 4 (Z.to_nat d)
                          (firstn (Z.to_nat d * 4) (skipn 8 buffer))))).
Proof.
  cbv zeta. unfold deserialize. cbv zeta.
  destruct (Nat.ltb_spec (length buffer) 8) as [Short|Long].
  - unfold read_at, sizeof_int32, sizeof_int16.
    repeat match goal with
           | |- context [Nat.leb ?a ?b] => destruct (Nat.leb_spec a b)
           end; cbn [bind]; try reflexivity; lia.
  - rewrite !read_at_long by (unfold sizeof_int32, sizeof_int16; lia).
    cbn [bind].
    change (signed_value host
              (firstn sizeof_int16 (skipn (0 + sizeof_int32) buffer)))
      with (header_dimension host buffer).
    set (d := header_dimension host buffer).
    unfold Vector_ctor, validate_dimension.
    destruct (d <? 1); [reflexivity|].
    destruct (Z.gtb_spec d 16000) as [Big|Small].
    + destruct (d >? VECTOR_MAX_DIM) eqn:E; [reflexivity|].
      rewrite Z.gtb_ltb in E. apply Z.ltb_ge in E.
      unfold VECTOR_MAX_DIM in E. lia.
    + destruct (d >? VECTOR_MAX_DIM) eqn:E.
      { apply Z.gtb_lt in E. unfold VECTOR_MAX_DIM in E. lia. }
      cbn [bind dim data].
      destruct (Nat.ltb_spec (length buffer) (8 + 4 * Z.to_nat d)) as [Cut|Full].
      * rewrite read_at_short
          by (unfold sizeof_int32, sizeof_int16, sizeof_float; lia).
        reflexivity.
      * rewrite read_at_long
          by (unfold sizeof_int32, sizeof_int16, sizeof_float; lia).
        cbn [bind]. unfold array_store.
        rewrite length_map, chunks_length, repeat_length.
        destruct (Nat.leb_spec (Z.to_nat d) (Z.to_nat d)); [|lia].
        rewrite (skipn_all2 (n := Z.to_nat d) (repeat Float32.zero (Z.to_nat d)))
          by (rewrite repeat_length; lia).
        rewrite app_nil_r. reflexivity.
Qed.

(** C8, as the code has it. When the 8-byte header can be read and its
    dimension field is outside [1, 16000], [deserialize] fails with the
    InvalidDimension error. The function receives no buffer length and
    makes no truncation check: on a buffer shorter than the header, or
    shorter than the 8 + 4 * dimension bytes a valid header announces, it
    reads past the end of the buffer, which is undefined behaviour and no
    error; on a long enough buffer with a valid header it returns a vector.
    InvalidDimension is the only error it ever reports. *)
Theorem deserialize_failures host (buffer : list byte) :
  let d := header_dimension host buffer in
  ((8 <= length buffer)%nat -> d < 1 \/ d > 16000 ->
   fails_with InvalidDimension (deserialize host buffer)) /\
  ((length buffer < 8)%nat -> deserialize host buffer = Undefined) /\
  ((8 <= length buffer)%nat -> 1 <= d <= 16000 ->
   Z.of_nat (length buffer) < 8 + 4 * d ->
   deserialize host buffer = Undefined) /\
  (1 <= d <= 16000 -> 8 + 4 * d <= Z.of_nat (length buffer) ->
   exists v, deserialize host buffer = Ret v /\ valid v /\ dim v = d) /\
  (forall e, deserialize host buffer = Throw e -> InvalidDimension e).
Proof.
  cbv zeta. rewrite deserialize_cases. cbv zeta.
  set (d := header_dimension host buffer).
  destruct (Nat.ltb_spec (length buffer) 8) as [Short|Long].
  { repeat split; try (intros; lia); try reflexivity.
    intros e H; discriminate H. }
  destruct (Z.ltb_spec d 1) as [Low|NotLow].
  { repeat split; try (intros; lia).
    - intros _ _. eexists; split; [reflexivity|now left].
    - intros e H. injection H as <-. now left. }
  destruct (Z.gtb_spec d 16000) as [High|NotHigh].
  { repeat split; try (intros; lia).
    - intros _ _. eexists; split; [reflexivity|now right].
    - intros e H. injection H as <-. now right. }
  destruct (Nat.ltb_spec (length buffer) (8 + 4 * Z.to_nat d)) as [Cut|Full].
  { repeat split; try (intros; lia); try reflexivity.
    intros e H; discriminate H. }
  split; [intros; lia|]. split; [intros; lia|]. split; [intros; lia|].
  split.
  - intros _ _. eexists; split; [reflexivity|]. split; [|reflexivity].
    unfold valid, VECTOR_MAX_DIM; cbn [dim data].
    split; [lia|]. now rewrite length_map, chunks_length.
  - intros e H; discriminate H.
Qed.

Lemma deserialize_failures_witness :
  fails_with InvalidDimension
    (deserialize LittleEndian [x00; x00; x00; x00; x81; x3e; x00; x00]) /\
  deserialize LittleEndian [x00; x00; x00; x00; x02; x00; x00; x00; x00]
  = Undefined.
Proof.
  split.
  - apply (proj1 (deserialize_failures
                    LittleEndian [x00; x00; x00; x00; x81; x3e; x00; x00])).
    + cbn; lia.
    + right. vm_compute. reflexivity.
  - apply (proj1 (proj2 (proj2 (deserialize_failures
                    LittleEndian
                    [x00; x00; x00; x00; x02; x00; x00; x00; x00])))).
    + cbn; lia.
    + vm_compute. split; discriminate.
    + vm_compute. reflexivity.
Defined.

(** C8, as stated, fails on the code: a buffer holding a valid header that
    announces one element, and nothing after it, is 4 bytes short; the call
    reads past its end and raises no error at all, so no TruncatedInput
    error is reported. *)
Lemma deserialize_truncated_not_reported :
  header_dimension LittleEndian header_only = 1 /\
  Z.of_nat (length header_only)
  < 8 + 4 * header_dimension LittleEndian header_only /\
  deserialize LittleEndian header_only = Undefined /\
  ~ (exists e, deserialize LittleEndian header_only = Throw e).
Proof.
  repeat split.
  intros (e & H). discriminate H.
Qed.

(* ================================================================= *)
(** ** Images and values of floats *)

Lemma float_fields (x : Float32.float) :
  Float32.is_float x ->
  exists s e m,
    (s = 0 \/ s = 1) /\ 0 <= e < 256 /\ 0 <= m < 8388608 /\
    x = s * 2147483648 + e * 8388608 + m /\
    Float32.sign_field x = Z.odd s /\
    Float32.exponent_field x = e /\
    Float32.fraction_field x = m.
Proof.
  unfold Float32.is_float, Float32.sign_field, Float32.exponent_field,
    Float32.fraction_field.
  change (2 ^ 32) with 4294967296. intros R.
  rewrite Z.testbit_odd, !Z.shiftr_div_pow2 by lia.
  change 255 with (Z.ones 8). change (2 ^ 23 - 1) with (Z.ones 23).
  rewrite !Z.land_ones by lia.
  change (2 ^ 31) with 2147483648. change (2 ^ 23) with 8388608.
  change (2 ^ 8) with 256.
  exists (x / 2147483648), ((x / 8388608) mod 256), (x mod 8388608).
  repeat split; try reflexivity; Z.div_mod_to_equations; lia.
Qed.

Lemma of_SF_to_SF (x : Float32.float) :
  Float32.is_float x -> Float32.is_nan x = false ->
  Float32.of_SF (Float32.to_SF x) = x.
Proof.
  intros F. destruct (float_fields x F) as (s & e & m & Hs & He & Hm & Hx & S & E & M).
  unfold Float32.is_nan, Float32.to_SF. rewrite S, E, M.
  assert (SB : Float32.sign_bit (Z.odd s) = s * 2147483648)
    by (destruct Hs; subst s; reflexivity).
  change (2 ^ 23) with 8388608.
  destruct (Z.eqb_spec e 0) as [E0|E0].
  - destruct m as [|p|p]; intros _; cbn [Float32.of_SF]; rewrite SB; try lia.
    change (2 ^ 23) with 8388608.
    destruct (Z.ltb_spec (Z.pos p) 8388608); lia.
  - destruct (Z.eqb_spec e 255) as [E1|E1].
    + destruct (Z.eqb_spec m 0); [|discriminate].
      intros _. cbn [Float32.of_SF]. rewrite SB. lia.
    + destruct (m + 8388608) as [|p|p] eqn:Em; try lia.
      intros _. cbn [Float32.of_SF]. rewrite SB.
      change (2 ^ 23) with 8388608.
      destruct (Z.ltb_spec (Z.pos p) 8388608); lia.
Qed.

Lemma SFeqb_refl (f : spec_float) : f <> S754_nan -> SFeqb f f = true.
Proof.
  destruct f as [s|s| |s m e]; intros H; try reflexivity; try contradiction;
    try (now destruct s).
  unfold SFeqb, SFcompare.
  rewrite Z.compare_refl, Pcompare_refl. now destruct s.
Qed.

Lemma add_zero_sub_zero (x y : Float32.float) :
  Float32.is_float x -> Float32.is_nan x = false ->
  (exists s, Float32.to_SF y = S754_zero s) ->
  Float32.eqb (Float32.sub (Float32.add x y) y) x = true.
Proof.
  intros F N [sy Hy].
  pose proof (not_nan_to_SF x N) as NN.
  pose proof (of_SF_to_SF x F N) as RT.
  unfold Float32.eqb, Float32.sub, Float32.add. rewrite Hy.
  destruct (Float32.to_SF x) as [sx|sx| |sx m e] eqn:Ex.
  - destruct sx, sy; reflexivity.
  - cbn [SFadd]. rewrite RT, Ex. cbn [SFsub]. rewrite RT, Ex.
    now destruct sx.
  - contradiction.
  - cbn [SFadd]. rewrite RT, Ex. cbn [SFsub]. rewrite RT, Ex.
    apply SFeqb_refl. discriminate.
Qed.

(** C9, as the code has it. For valid vectors [a] and [b] of equal
    dimension, [(a + b) - b] is a vector of the same dimension whose i-th
    element is the single-precision difference of the single-precision sum
    [a[i] + b[i]] and [b[i]], each operation rounded; it compares equal to
    [a[i]] when [b[i]] is a zero and [a[i]] is not a NaN. *)
Theorem add_then_subtract_spec (a b : Vector) :
  valid a -> valid b -> dim a = dim b ->
  exists r,
    add_then_subtract a b = Ret r /\
    dim r = dim a /\
    length (data r) = length (data a) /\
    forall i x y,
      nth_error (data a) i = Some x -> nth_error (data b) i = Some y ->
      nth_error (data r) i = Some (Float32.sub (Float32.add x y) y) /\
      (Float32.is_float x -> Float32.is_nan x = false ->
       (exists s, Float32.to_SF y = S754_zero s) ->
       Float32.eqb (Float32.sub (Float32.add x y) y) x = true).
Proof.
  intros Va Vb E.
  assert (L : length (data a) = length (data b)).
  { destruct Va as [_ La], Vb as [_ Lb]. now rewrite La, Lb, E. }
  unfold add_then_subtract, operator_plus, operator_minus.
  rewrite elementwise_ok by assumption. cbn [bind].
  set (s := mkVector 0 (dim a) 0 (zip_with Float32.add (data a) (data b))).
  assert (Vs : valid s).
  { destruct Va as [Ra La]. split; [exact Ra|].
    cbn [data dim s]. now rewrite zip_with_length. }
  rewrite elementwise_ok by (try assumption; exact E).
  eexists. split; [reflexivity|]. cbn [dim data s].
  split; [reflexivity|]. split.
  - rewrite zip_with_length; rewrite zip_with_length; congruence.
  - intros i x y Hx Hy. split.
    + apply zip_with_nth; [|exact Hy]. now apply zip_with_nth.
    + now apply add_zero_sub_zero.
Qed.

Lemma add_then_subtract_spec_witness :
  exists r,
    add_then_subtract v123 (mkVector 0 3 0 [0; 0x80000000; 0]) = Ret r /\
    nth_error (data r) 1 = Some (Float32.sub (Float32.add 0x40000000 0x80000000)
                                             0x80000000) /\
    Float32.eqb (Float32.sub (Float32.add 0x40000000 0x80000000) 0x80000000)
                0x40000000 = true.
Proof.
  destruct (add_then_subtract_spec v123 (mkVector 0 3 0 [0; 0x80000000; 0]))
    as (r & Hr & _ & _ & H).
  - unfold valid, VECTOR_MAX_DIM; cbn; lia.
  - unfold valid, VECTOR_MAX_DIM; cbn; lia.
  - reflexivity.
  - exists r. split; [exact Hr|].
    destruct (H 1%nat 0x40000000 0x80000000 eq_refl eq_refl) as [H1 H2].
    split; [exact H1|]. apply H2.
    + unfold Float32.is_float; lia.
    + reflexivity.
    + exists true. reflexivity.
Defined.

(** C9, as stated, fails on the code: with [a = [1]] and [b = [16777216]]
    the sum [1 + 2^24] is not a single-precision number and rounds to
    [2^24], so [(a + b) - b] is [[0]], which does not equal [a]. *)
Lemma add_then_subtract_not_exact :
  valid (single f_one) /\ valid (single f_2p24) /\
  dim (single f_one) = dim (single f_2p24) /\
  operator_plus (single f_one) (single f_2p24) = Ret (single f_2p24) /\
  add_then_subtract (single f_one) (single f_2p24)
  = Ret (single Float32.zero) /\
  (r <- add_then_subtract (single f_one) (single f_2p24) ;;
   operator_eq r (single f_one)) = Ret false.
Proof.
  split; [unfold valid, VECTOR_MAX_DIM; cbn; lia|].
  split; [unfold valid, VECTOR_MAX_DIM; cbn; lia|].
  repeat split.
Qed.

(* ================================================================= *)
(** ** The unit tests of test_vector.cpp, replayed on the embedding *)

Example test_basic_operations :
  operator_plus v123 v456
  = Ret (mkVector 0 3 0 [0x40A00000; 0x40E00000; 0x41100000]) /\
  operator_minus v456 v123
  = Ret (mkVector 0 3 0 [0x40400000; 0x40400000; 0x40400000]) /\
  operator_times v123 v456
  = Ret (mkVector 0 3 0 [0x40800000; 0x41200000; 0x41900000]) /\
  operator_times_scalar v123 f_two
  = Ret (mkVector 0 3 0 [0x40000000; 0x40800000; 0x40C00000]).
Proof. repeat split. Qed.

Example test_norms :
  l2_norm (mkVector 0 3 0 [0x40400000; 0x40800000; 0]) = 0x40A00000 /\
  l1_norm (mkVector 0 3 0 [0x40400000; 0x40800000; 0]) = 0x40E00000.
Proof. split; reflexivity. Qed.

Example test_comparison :
  operator_eq (mkVector 0 2 0 [f_one; f_two]) (mkVector 0 2 0 [f_one; f_two])
  = Ret true /\
  operator_ne (mkVector 0 2 0 [f_one; f_two])
              (mkVector 0 2 0 [f_two; 0x40400000]) = Ret true /\
  operator_lt (mkVector 0 2 0 [f_one; f_two])
              (mkVector 0 2 0 [f_two; 0x40400000]) = Ret true /\
  operator_gt (mkVector 0 2 0 [f_two; 0x40400000])
              (mkVector 0 2 0 [f_one; f_two]) = Ret true /\
  operator_le (mkVector 0 2 0 [f_one; f_two]) (mkVector 0 2 0 [f_one; f_two])
  = Ret true /\
  operator_ge (mkVector 0 2 0 [f_one; f_two]) (mkVector 0 2 0 [f_one; f_two])
  = Ret true.
Proof. repeat split. Qed.

Example test_serialization :
  (b <- serialize LittleEndian v123 (repeat x00 1024) ;;
   deserialize LittleEndian b) = Ret v123.
Proof. vm_compute. reflexivity. Qed.

(* ================================================================= *)
(** ** Equality of vectors *)

Lemma eqb_sym (x y : Float32.float) : Float32.eqb x y = Float32.eqb y x.
Proof.
  unfold Float32.eqb, SFeqb.
  rewrite (SFcompare_antisym (Float32.to_SF x) (Float32.to_SF y)).
  now destruct (SFcompare (Float32.to_SF x) (Float32.to_SF y)) as [[| |]|].
Qed.

Lemma eqb_refl_not_nan (x : Float32.float) :
  Float32.eqb x x = negb (Float32.is_nan x).
Proof.
  unfold Float32.eqb, Float32.is_nan.
  destruct (Float32.to_SF x) as [s|s| |s m e] eqn:E; cbn [negb];
    try (apply SFeqb_refl; discriminate). reflexivity.
Qed.

Lemma eqb_true_not_nan (x y : Float32.float) :
  Float32.eqb x y = true ->
  Float32.is_nan x = false /\ Float32.is_nan y = false.
Proof.
  unfold Float32.eqb, Float32.is_nan, SFeqb.
  destruct (Float32.to_SF x) as [s|s| |s m e],
           (Float32.to_SF y) as [s'|s'| |s' m' e'];
    cbn [SFcompare]; try discriminate; now split.
Qed.

(** Between values that are not NaN, [==] holds when neither [<] nor [>]
    does, that is, when the two values have the same position. *)
Lemma SFeqb_key (x y : spec_float) :
  x <> S754_nan -> y <> S754_nan ->
  (SFeqb x y = true <-> SF_key x = SF_key y).
Proof.
  intros Hx Hy.
  assert (E : SFeqb x y = negb (SFltb x y) && negb (SFltb y x)).
  { unfold SFeqb, SFltb. rewrite (SFcompare_antisym x y).
    destruct x as [s|s| |s m e], y as [s'|s'| |s' m' e'];
      try contradiction;
      destruct (SFcompare _ _) as [[| |]|] eqn:C; try reflexivity;
      cbn [SFcompare] in C; discriminate. }
  rewrite E, !SFltb_key by assumption. split.
  - intros H. apply andb_true_iff in H. destruct H as [H1 H2].
    apply negb_true_iff in H1, H2. now apply key_ltb_total.
  - intros ->. now rewrite key_ltb_irrefl.
Qed.

Lemma std_equal_defined :
  forall a b, length a = length b -> exists r, std_equal a b = Ret r.
Proof.
  induction a as [|x a IH]; intros [|y b] L; cbn [std_equal];
    try discriminate; [now exists true|].
  destruct (Float32.eqb x y); [apply IH; now injection L|now exists false].
Qed.

Lemma std_equal_true :
  forall a b,
    length a = length b ->
    (std_equal a b = Ret true <-> elements_equal a b).
Proof.
  unfold elements_equal.
  induction a as [|x a IH]; intros [|y b] L; cbn [std_equal];
    try discriminate.
  - split; [constructor|reflexivity].
  - injection L as L. destruct (Float32.eqb x y) eqn:E.
    + rewrite (IH b L). split; [now constructor|]. intros H.
      now inversion H.
    + split; [discriminate|]. intros H. inversion H; congruence.
Qed.

Lemma std_equal_sym :
  forall a b, length a = length b -> std_equal a b = std_equal b a.
Proof.
  induction a as [|x a IH]; intros [|y b] L; cbn [std_equal];
    try discriminate; [reflexivity|].
  rewrite (eqb_sym y x). destruct (Float32.eqb x y); [|reflexivity].
  apply IH. now injection L.
Qed.

Lemma well_formed_lengths (a b : Vector) :
  well_formed a -> well_formed b ->
  (dim a = dim b <-> length (data a) = length (data b)).
Proof. intros [Pa La] [Pb Lb]. split; intros H; lia. Qed.

(** [operator==] on vectors that keep the class invariant: it returns, and
    the answer is true exactly when the dimensions agree and every pair of
    corresponding elements compares equal. *)
Theorem operator_eq_spec (a b : Vector) :
  well_formed a -> well_formed b ->
  exists r,
    operator_eq a b = Ret r /\
    (r = true <-> dim a = dim b /\ elements_equal (data a) (data b)).
Proof.
  intros Wa Wb. unfold operator_eq.
  destruct (Z.eqb_spec (dim a) (dim b)) as [E|N]; cbn [negb].
  - pose proof (proj1 (well_formed_lengths a b Wa Wb) E) as L.
    destruct (std_equal_defined _ _ L) as [r Hr]. exists r.
    split; [exact Hr|]. rewrite <- (std_equal_true _ _ L), Hr.
    split; [intros ->; now split|]. intros [_ H]. now injection H.
  - exists false. split; [reflexivity|]. split; [discriminate|].
    intros [E _]. contradiction.
Qed.

Lemma operator_eq_spec_witness :
  exists r, operator_eq v123 v456 = Ret r /\
            (r = true <->
             dim v123 = dim v456 /\ elements_equal (data v123) (data v456)).
Proof.
  apply (operator_eq_spec v123 v456); unfold well_formed; cbn; lia.
Defined.

(** [operator==] is symmetric. *)
Theorem operator_eq_symmetric (a b : Vector) :
  well_formed a -> well_formed b -> operator_eq a b = operator_eq b a.
Proof.
  intros Wa Wb. unfold operator_eq. rewrite (Z.eqb_sym (dim b) (dim a)).
  destruct (Z.eqb_spec (dim a) (dim b)) as [E|N]; cbn [negb]; [|reflexivity].
  apply std_equal_sym. now apply well_formed_lengths.
Qed.

Lemma operator_eq_symmetric_witness :
  operator_eq v123 v456 = operator_eq v456 v123.
Proof.
  apply (operator_eq_symmetric v123 v456); unfold well_formed; cbn; lia.
Defined.

Lemma elements_equal_refl (l : list Float32.float) :
  elements_equal l l <-> Forall (fun x => Float32.is_nan x = false) l.
Proof.
  unfold elements_equal. induction l as [|x l IH].
  - split; constructor.
  - split; intros H; inversion H; subst; constructor;
      try (now apply IH).
    + match goal with
      | E : Float32.eqb x x = true |- _ =>
          rewrite eqb_refl_not_nan in E; now apply negb_true_iff in E
      end.
    + rewrite eqb_refl_not_nan. now apply negb_true_iff.
Qed.

(** A vector compares equal to itself exactly when none of its elements is
    a NaN. *)
Theorem operator_eq_reflexive_iff (v : Vector) :
  well_formed v -> (operator_eq v v = Ret true <-> nan_free v).
Proof.
  intros W. unfold operator_eq, nan_free. rewrite Z.eqb_refl. cbn [negb].
  rewrite (std_equal_true _ _ eq_refl). apply elements_equal_refl.
Qed.

Lemma operator_eq_reflexive_iff_witness :
  operator_eq v123 v123 = Ret true /\
  ~ (operator_eq (single f_nan) (single f_nan) = Ret true).
Proof.
  split.
  - apply (operator_eq_reflexive_iff v123); [unfold well_formed; cbn; lia|].
    repeat constructor.
  - intros H.
    apply (operator_eq_reflexive_iff (single f_nan)) in H;
      [|unfold well_formed; cbn; lia].
    inversion H as [|x l Hx Hl]. discriminate Hx.
Defined.

(* ================================================================= *)
(** ** Equality and order together *)

Lemma cons_eq_inv {A : Type} (x y : A) (l l' : list A) :
  x :: l = y :: l' -> x = y /\ l = l'.
Proof.
  intros H. split; [exact (f_equal (hd x) H)|exact (f_equal (@tl A) H)].
Qed.

Lemma elements_equal_keys :
  forall a b,
    Forall (fun x => Float32.is_nan x = false) a ->
    Forall (fun x => Float32.is_nan x = false) b ->
    (elements_equal a b
     <-> map (fun x => SF_key (Float32.to_SF x)) a
         = map (fun x => SF_key (Float32.to_SF x)) b).
Proof.
  unfold elements_equal.
  induction a as [|x a IH]; intros [|y b] Na Nb; cbn [map].
  - split; [reflexivity|constructor].
  - split; [intros H; inversion H|discriminate].
  - split; [intros H; inversion H|discriminate].
  - inversion Na as [|? ? Hx Na']; inversion Nb as [|? ? Hy Nb']; subst.
    pose proof (SFeqb_key _ _ (not_nan_to_SF x Hx) (not_nan_to_SF y Hy)) as K.
    split.
    + intros H. inversion H as [|? ? ? ? Hxy Hab]; subst.
      f_equal; [now apply K|now apply (IH b)].
    + intros H. destruct (cons_eq_inv _ _ _ _ H) as [Hk Ht].
      constructor; [now apply K|now apply (IH b)].
Qed.

Lemma operator_eq_keys (a b : Vector) :
  well_formed a -> nan_free a -> well_formed b -> nan_free b ->
  exists r, operator_eq a b = Ret r /\ (r = true <-> keys a = keys b).
Proof.
  intros Wa Na Wb Nb. unfold operator_eq.
  destruct (Z.eqb_spec (dim a) (dim b)) as [E|N]; cbn [negb].
  - pose proof (proj1 (well_formed_lengths a b Wa Wb) E) as L.
    destruct (std_equal_defined _ _ L) as [r Hr]. exists r.
    split; [exact Hr|]. unfold keys.
    rewrite <- (elements_equal_keys _ _ Na Nb), <- (std_equal_true _ _ L), Hr.
    split; [now intros ->|]. intros H. now injection H.
  - exists false. split; [reflexivity|]. split; [discriminate|].
    intros K. exfalso. apply N. apply (well_formed_lengths a b Wa Wb).
    apply (f_equal (@length _)) in K. unfold keys in K.
    now rewrite !length_map in K.
Qed.

Lemma key_list_lt_asym (a b : list (Z * Z * Z)) :
  key_list_lt a b = true -> key_list_lt b a = false.
Proof.
  intros H. destruct (key_list_lt b a) eqn:E; [|reflexivity].
  pose proof (key_list_lt_trans _ _ _ H E) as T.
  rewrite key_list_lt_irrefl in T. discriminate.
Qed.

(** Without NaN elements the order is total up to [==]: of [a < b],
    [a == b] and [b < a], exactly one holds. *)
Theorem comparison_trichotomy (a b : Vector) :
  well_formed a -> nan_free a -> well_formed b -> nan_free b ->
  (operator_lt a b = Ret true /\ operator_eq a b = Ret false /\
   operator_lt b a = Ret false) \/
  (operator_lt a b = Ret false /\ operator_eq a b = Ret true /\
   operator_lt b a = Ret false) \/
  (operator_lt a b = Ret false /\ operator_eq a b = Ret false /\
   operator_lt b a = Ret true).
Proof.
  intros Wa Na Wb Nb.
  rewrite (vector_lt_keys a b), (vector_lt_keys b a) by assumption.
  destruct (operator_eq_keys a b Wa Na Wb Nb) as (r & -> & Hr).
  destruct (key_list_lt (keys a) (keys b)) eqn:Lab.
  - left. rewrite (key_list_lt_asym _ _ Lab).
    destruct r; [|now repeat split].
    rewrite (proj1 Hr eq_refl), key_list_lt_irrefl in Lab. discriminate.
  - destruct (key_list_lt (keys b) (keys a)) eqn:Lba.
    + right; right. destruct r; [|now repeat split].
      rewrite (proj1 Hr eq_refl), key_list_lt_irrefl in Lba. discriminate.
    + right; left. rewrite (proj2 Hr (key_list_lt_total _ _ Lab Lba)).
      now repeat split.
Qed.

Lemma comparison_trichotomy_witness :
  operator_lt v123 v456 = Ret true /\ operator_eq v123 v456 = Ret false /\
  operator_lt v456 v123 = Ret false.
Proof.
  assert (W1 : well_formed v123) by (unfold well_formed; cbn; lia).
  assert (W2 : well_formed v456) by (unfold well_formed; cbn; lia).
  assert (N1 : nan_free v123) by repeat constructor.
  assert (N2 : nan_free v456) by repeat constructor.
  destruct (comparison_trichotomy v123 v456 W1 N1 W2 N2) as [H|[H|H]].
  - exact H.
  - destruct H as [H _]. discriminate H.
  - destruct H as [H _]. discriminate H.
Defined.

(** Without NaN elements the derived comparisons agree with one another:
    [a > b] is [b < a], and [a <= b] is [b >= a]. *)
Theorem derived_comparisons_consistent (a b : Vector) :
  well_formed a -> nan_free a -> well_formed b -> nan_free b ->
  operator_gt a b = operator_lt b a /\
  operator_le a b = operator_ge b a.
Proof.
  intros Wa Na Wb Nb.
  unfold operator_gt, operator_ge, operator_le.
  rewrite (vector_lt_keys a b), (vector_lt_keys b a) by assumption.
  destruct (operator_eq_keys a b Wa Na Wb Nb) as (r & Hr & K).
  cbn [bind]. destruct (key_list_lt (keys a) (keys b)) eqn:Lab.
  - cbn [bind]. rewrite (key_list_lt_asym _ _ Lab). now split.
  - rewrite Hr. cbn [bind].
    destruct (key_list_lt (keys b) (keys a)) eqn:Lba.
    + destruct r; [|now split].
      rewrite (proj1 K eq_refl), key_list_lt_irrefl in Lba. discriminate.
    + rewrite (proj2 K (key_list_lt_total _ _ Lab Lba)). now split.
Qed.

Lemma derived_comparisons_consistent_witness :
  operator_gt v456 v123 = operator_lt v123 v456 /\
  operator_le v456 v123 = operator_ge v123 v456.
Proof.
  assert (W1 : well_formed v123) by (unfold well_formed; cbn; lia).
  assert (W2 : well_formed v456) by (unfold well_formed; cbn; lia).
  assert (N1 : nan_free v123) by repeat constructor.
  assert (N2 : nan_free v456) by repeat constructor.
  exact (derived_comparisons_consistent v456 v123 W2 N2 W1 N1).
Defined.

Lemma elements_equal_before (a b : list Float32.float) :
  elements_equal a b -> forall n, equal_before n a b.
Proof.
  unfold elements_equal, equal_before.
  induction 1 as [|x y a b Hxy _ IH]; intros n [|j] u v Hj Hu Hv;
    cbn in Hu, Hv; try discriminate.
  - injection Hu as <-. injection Hv as <-. exact Hxy.
  - apply (IH (S j) j u v); [lia|exact Hu|exact Hv].
Qed.

Lemma elements_equal_sym (a b : list Float32.float) :
  elements_equal a b -> elements_equal b a.
Proof.
  unfold elements_equal. induction 1; constructor; [|assumption].
  now rewrite eqb_sym.
Qed.

(** Equal vectors are not ordered: when [a == b], neither [a < b] nor
    [b < a], so [a <= b] and [a >= b] hold and [a > b] does not. This
    holds for all vectors, NaN or not, since [==] already excludes NaN. *)
Theorem equal_vectors_incomparable (a b : Vector) :
  well_formed a -> well_formed b ->
  operator_eq a b = Ret true ->
  operator_lt a b = Ret false /\ operator_lt b a = Ret false /\
  operator_le a b = Ret true /\ operator_ge a b = Ret true /\
  operator_gt a b = Ret false.
Proof.
  intros Wa Wb E.
  assert (D : dim a = dim b /\ elements_equal (data a) (data b)).
  { unfold operator_eq in E.
    destruct (Z.eqb_spec (dim a) (dim b)) as [D|N]; cbn [negb] in E;
      [|discriminate].
    split; [exact D|]. apply std_equal_true; [|exact E].
    now apply well_formed_lengths. }
  destruct D as [D EE].
  pose proof (proj1 (well_formed_lengths a b Wa Wb) D) as L.
  assert (Lab : operator_lt a b = Ret false).
  { rewrite operator_lt_list by assumption. f_equal.
    rewrite list_lt_all_equal by now apply elements_equal_before.
    apply Z.ltb_ge. lia. }
  assert (Lba : operator_lt b a = Ret false).
  { rewrite operator_lt_list by assumption. f_equal.
    rewrite list_lt_all_equal
      by (apply elements_equal_before; now apply elements_equal_sym).
    apply Z.ltb_ge. lia. }
  unfold operator_le, operator_ge, operator_gt, operator_le.
  rewrite Lab. cbn [bind]. rewrite E. now repeat split.
Qed.

Lemma equal_vectors_incomparable_witness :
  operator_lt (single Float32.zero) (single 0x80000000) = Ret false /\
  operator_le (single Float32.zero) (single 0x80000000) = Ret true.
Proof.
  destruct (equal_vectors_incomparable
              (single Float32.zero) (single 0x80000000))
    as (H1 & _ & H2 & _); try (unfold well_formed; cbn; lia).
  - reflexivity.
  - split; [exact H1|exact H2].
Defined.

Lemma ltb_nan_l (n x : Float32.float) :
  Float32.is_nan n = true -> Float32.ltb n x = false.
Proof.
  unfold Float32.is_nan, Float32.ltb.
  now destruct (Float32.to_SF n).
Qed.

Lemma ltb_nan_r (n x : Float32.float) :
  Float32.is_nan n = true -> Float32.ltb x n = false.
Proof.
  unfold Float32.is_nan, Float32.ltb.
  destruct (Float32.to_SF n); try discriminate.
  now destruct (Float32.to_SF x).
Qed.

Lemma eqb_nan_l (n x : Float32.float) :
  Float32.is_nan n = true -> Float32.eqb n x = false.
Proof.
  unfold Float32.is_nan, Float32.eqb.
  now destruct (Float32.to_SF n).
Qed.

(** With a NaN the derived comparisons contradict one another: for a NaN
    [n] and any [x], neither [[n] < [x]] nor [[x] < [n]] holds, yet both
    [[n] > [x]] and [[x] > [n]] do, and [[n] <= [x]] fails while
    [[x] >= [n]] holds. *)
Theorem nan_comparisons_inconsistent (n x : Float32.float) :
  Float32.is_nan n = true ->
  operator_lt (single n) (single x) = Ret false /\
  operator_lt (single x) (single n) = Ret false /\
  operator_gt (single n) (single x) = Ret true /\
  operator_gt (single x) (single n) = Ret true /\
  operator_le (single n) (single x) = Ret false /\
  operator_ge (single x) (single n) = Ret true.
Proof.
  intros N.
  assert (L : forall u v,
             Float32.ltb u v = false -> Float32.ltb v u = false ->
             operator_lt (single u) (single v) = Ret false).
  { intros u v Huv Hvu. unfold operator_lt, single. cbn [dim data].
    change (Z.to_nat (Z.min 1 1)) with 1%nat.
    cbn [lt_loop subscript nth_error bind].
    change (Float32.gtb u v) with (Float32.ltb v u).
    now rewrite Huv, Hvu. }
  assert (E : forall u v,
             Float32.eqb u v = false ->
             operator_eq (single u) (single v) = Ret false).
  { intros u v Huv. unfold operator_eq, single. cbn [dim data].
    change (negb (1 =? 1)) with false. cbn [std_equal]. now rewrite Huv. }
  pose proof (L n x (ltb_nan_l n x N) (ltb_nan_r n x N)) as L1.
  pose proof (L x n (ltb_nan_r n x N) (ltb_nan_l n x N)) as L2.
  pose proof (E n x (eqb_nan_l n x N)) as E1.
  assert (E2 : operator_eq (single x) (single n) = Ret false).
  { apply E. now rewrite eqb_sym, (eqb_nan_l n x N). }
  unfold operator_gt, operator_ge, operator_le.
  rewrite L1, L2. cbn [bind]. rewrite E1, E2. now repeat split.
Qed.

Lemma nan_comparisons_inconsistent_witness :
  operator_gt (single f_nan) (single f_one) = Ret true /\
  operator_gt (single f_one) (single f_nan) = Ret true.
Proof.
  destruct (nan_comparisons_inconsistent f_nan f_one eq_refl)
    as (_ & _ & H1 & H2 & _).
  split; [exact H1|exact H2].
Defined.
(* ================================================================= *)
(** ** Element access *)

Lemma assign_nth {A : Type} (l : list A) :
  forall (i : nat) (x : A) (l' : list A),
    assign l i x = Ret l' ->
    length l' = length l /\
    forall j, nth_error l' j = if (j =? i)%nat then Some x else nth_error l j.
Proof.
  induction l as [|h t IH]; intros [|i] x l' H; cbn [assign] in H;
    try discriminate.
  - injection H as <-. split; [reflexivity|]. now intros [|j].
  - destruct (assign t i x) as [t'|e|] eqn:E; cbn [bind] in H;
      try discriminate.
    injection H as <-. destruct (IH i x t' E) as [L N].
    split; [cbn [length]; now rewrite L|].
    intros [|j]; [reflexivity|]. cbn [nth_error]. rewrite N. reflexivity.
Qed.

(** Writing an element and reading it back: on an index below the
    dimension [setValue] returns a vector that holds the new value at that
    index, is unchanged at every other index, and keeps the header fields
    and the number of elements. *)
Theorem setValue_then_getValue (v : Vector) (i : nat) (x : Float32.float) :
  well_formed v -> Z.of_nat i < dim v ->
  exists v',
    setValue v i x = Ret v' /\
    getValue v' i = Ret x /\
    (forall j, j <> i -> getValue v' j = getValue v j) /\
    vl_len_ v' = vl_len_ v /\ dim v' = dim v /\ unused v' = unused v /\
    well_formed v'.
Proof.
  intros [P L] Hi. unfold setValue, getValue, subscript.
  assert (Hlt : (i < length (data v))%nat) by lia.
  destruct (assign (data v) i x) as [d|e|] eqn:E.
  - destruct (assign_nth _ _ _ _ E) as [Ld N]. cbn [bind].
    eexists. split; [reflexivity|]. cbn [data vl_len_ dim unused set_data].
    split; [now rewrite N, Nat.eqb_refl|].
    split.
    + intros j Hj. rewrite N.
      destruct (Nat.eqb_spec j i); [contradiction|reflexivity].
    + repeat split; try assumption.
      unfold set_data; cbn [data dim]. lia.
  - now destruct (assign_never_throws (data v) i x e).
  - rewrite assign_in_range in E by exact Hlt. discriminate.
Qed.

Lemma setValue_then_getValue_witness :
  exists v',
    setValue v123 1 f_one = Ret v' /\ getValue v' 1 = Ret f_one /\
    getValue v' 2 = getValue v123 2.
Proof.
  destruct (setValue_then_getValue v123 1 f_one) as (v' & S & G & O & _).
  - unfold well_formed; cbn; lia.
  - cbn; lia.
  - exists v'. split; [exact S|]. split; [exact G|]. apply O. discriminate.
Defined.

(** The private check [validate_index] accepts exactly the indices at
    which the accessors are defined: it returns where [getValue] returns
    and reports "vector index out of range" where [getValue] would read
    outside the array. *)
Theorem validate_index_matches_bounds (v : Vector) (i : nat) :
  well_formed v -> int16_range (dim v) ->
  (validate_index v i = Ret tt /\ succeeds (getValue v i)) \/
  (fails_with IndexOutOfRange (validate_index v i) /\
   getValue v i = Undefined).
Proof.
  intros [P L] R. unfold int16_range in R.
  unfold validate_index, to_size_t, getValue, subscript, succeeds.
  rewrite Z.mod_small
    by (split; [exact P|]; change (2 ^ 15) with 32768 in R;
        change (2 ^ 64) with 18446744073709551616; lia).
  destruct (Z.geb_spec (Z.of_nat i) (dim v)) as [Out|In].
  - right. split; [eexists; split; reflexivity|].
    now rewrite (proj2 (nth_error_None (data v) i)) by lia.
  - left. split; [reflexivity|].
    destruct (subscript_in_range (data v) i) as [x ->]; [lia|]. eauto.
Qed.

Lemma validate_index_matches_bounds_witness :
  fails_with IndexOutOfRange (validate_index v123 3) /\
  getValue v123 3 = Undefined.
Proof.
  destruct (validate_index_matches_bounds v123 3) as [[H _]|H].
  - unfold well_formed; cbn; lia.
  - unfold int16_range; cbn; lia.
  - discriminate H.
  - exact H.
Defined.

(* ================================================================= *)
(** ** Scalar multiplication and the results of arithmetic *)

Lemma scalar_loop (s : Float32.float) (a : list Float32.float) :
  forall n i r,
    length a = (i + n)%nat -> length r = (i + n)%nat ->
    for_loop n i
      (fun i rd => x <- subscript a i ;; assign rd i (Float32.mul x s)) r
    = Ret (firstn i r ++ map (fun x => Float32.mul x s) (skipn i a)).
Proof.
  induction n as [|n IH]; intros i r Ha Hr; cbn [for_loop].
  - rewrite skipn_all2 by lia. cbn [map].
    rewrite app_nil_r, firstn_all2 by lia. reflexivity.
  - destruct (subscript_in_range a i) as [x Hx]; [lia|].
    unfold subscript at 1. rewrite Hx. cbn [bind].
    rewrite assign_in_range by lia. cbn [bind].
    rewrite IH.
    + rewrite firstn_snoc_write by lia.
      rewrite (subscript_skipn a i x Hx). cbn [map].
      rewrite <- app_assoc. reflexivity.
    + lia.
    + rewrite length_app, length_firstn. cbn [length].
      rewrite length_skipn. lia.
Qed.

(** [v * scalar] and [scalar * v]: on a valid vector both return the
    vector of the same dimension whose elements are the single-precision
    products [v[i] * scalar]; on a vector of dimension 0 both fail with the
    InvalidDimension error raised by the constructor of the result. *)
Theorem operator_times_scalar_spec (v : Vector) (s : Float32.float) :
  scalar_times s v = operator_times_scalar v s /\
  (valid v ->
   operator_times_scalar v s
   = Ret (mkVector 0 (dim v) 0 (map (fun x => Float32.mul x s) (data v)))) /\
  (dim v < 1 -> operator_times_scalar v s = Throw at_least_one_dimension).
Proof.
  split; [reflexivity|]. split.
  - intros [R L]. unfold operator_times_scalar.
    rewrite Vector_ctor_ok by exact R. cbn [bind data].
    rewrite (scalar_loop s (data v) (length (data v)) 0);
      [reflexivity|reflexivity|].
    rewrite repeat_length. now rewrite L.
  - intros H. unfold operator_times_scalar.
    now rewrite Vector_ctor_too_small by exact H.
Qed.

Lemma operator_times_scalar_spec_witness :
  operator_times_scalar v123 f_two
  = Ret (mkVector 0 3 0 [0x40000000; 0x40800000; 0x40C00000]) /\
  operator_times_scalar Vector_default f_two = Throw at_least_one_dimension.
Proof.
  destruct (operator_times_scalar_spec v123 f_two) as (_ & H & _).
  destruct (operator_times_scalar_spec Vector_default f_two) as (_ & _ & H0).
  split.
  - rewrite H; [reflexivity|]. unfold valid, VECTOR_MAX_DIM; cbn; lia.
  - apply H0. cbn; lia.
Defined.

Lemma for_loop_invariant {S : Type} (P : S -> Prop)
  (body : nat -> S -> outcome S) :
  (forall i s s', P s -> body i s = Ret s' -> P s') ->
  forall n i s s', P s -> for_loop n i body s = Ret s' -> P s'.
Proof.
  intros B. induction n as [|n IH]; intros i s s' Hs H; cbn [for_loop] in H.
  - now injection H as <-.
  - destruct (body i s) as [s1|e|] eqn:E; cbn [bind] in H; try discriminate.
    exact (IH _ _ _ (B _ _ _ Hs E) H).
Qed.

Lemma elementwise_returns op (a b r : Vector) :
  elementwise op a b = Ret r ->
  valid r /\ vl_len_ r = 0 /\ unused r = 0 /\ dim r = dim a /\ dim r = dim b.
Proof.
  unfold elementwise, check_compatibility. intros H.
  destruct (Z.eqb_spec (dim a) (dim b)) as [E|N]; cbn [negb bind] in H;
    [|discriminate].
  destruct (Z.lt_ge_cases (dim a) 1) as [Lo|Lo];
    [rewrite Vector_ctor_too_small in H by exact Lo; discriminate|].
  destruct (Z.le_gt_cases (dim a) VECTOR_MAX_DIM) as [Hi|Hi];
    [|rewrite Vector_ctor_too_large in H by lia; discriminate].
  rewrite Vector_ctor_ok in H by lia. cbn [bind data] in H.
  match type of H with
  | bind ?loop _ = _ => destruct loop as [d|e|] eqn:F
  end; cbn [bind] in H; try discriminate.
  injection H as <-. unfold set_data, valid; cbn [vl_len_ dim unused data].
  repeat split; try assumption; try lia.
  revert F.
  apply (for_loop_invariant
           (fun rd : list Float32.float => length rd = Z.to_nat (dim a))).
  - intros i s s' Hs Hb.
    destruct (subscript (data a) i); cbn [bind] in Hb; try discriminate.
    destruct (subscript (data b) i); cbn [bind] in Hb; try discriminate.
    destruct (assign_nth _ _ _ _ Hb) as [L _]. congruence.
  - apply repeat_length.
Qed.

(** Whatever the operands, a vector returned by [a + b], [a - b] or
    [a * b] is a valid vector of the operands' dimension whose header
    fields [vl_len_] and [unused] are zero: the header fields of the
    operands are not carried over. *)
Theorem arithmetic_results_valid (a b r : Vector) :
  operator_plus a b = Ret r \/ operator_minus a b = Ret r \/
  operator_times a b = Ret r ->
  valid r /\ vl_len_ r = 0 /\ unused r = 0 /\ dim r = dim a /\ dim r = dim b.
Proof.
  intros [H|[H|H]]; exact (elementwise_returns _ a b r H).
Qed.

Lemma arithmetic_results_valid_witness :
  valid (mkVector 0 3 0 [0x40A00000; 0x40E00000; 0x41100000]) /\
  vl_len_ (mkVector 0 3 0 [0x40A00000; 0x40E00000; 0x41100000]) = 0.
Proof.
  destruct (arithmetic_results_valid
              (mkVector 7 3 9 (data v123)) v456
              (mkVector 0 3 0 [0x40A00000; 0x40E00000; 0x41100000]))
    as (V & L & _).
  - left. reflexivity.
  - split; [exact V|exact L].
Defined.

(* ================================================================= *)
(** ** Algebra of the operations *)

Lemma SFadd_comm (x y : spec_float) :
  SFadd Float32.prec Float32.emax x y = SFadd Float32.prec Float32.emax y x.
Proof.
  destruct x as [[|]|[|]| |sx mx ex], y as [[|]|[|]| |sy my ey];
    try reflexivity.
  cbn [SFadd]. cbv zeta. rewrite (Z.min_comm ey ex). f_equal. apply Z.add_comm.
Qed.

Lemma SFmul_comm (x y : spec_float) :
  SFmul Float32.prec Float32.emax x y = SFmul Float32.prec Float32.emax y x.
Proof.
  destruct x as [sx|sx| |sx mx ex], y as [sy|sy| |sy my ey];
    try reflexivity; cbn [SFmul]; rewrite (xorb_comm sy sx); try reflexivity.
  now rewrite (Pos.mul_comm my mx), (Z.add_comm ey ex).
Qed.

Lemma add_comm (x y : Float32.float) : Float32.add x y = Float32.add y x.
Proof. unfold Float32.add. now rewrite SFadd_comm. Qed.

Lemma mul_comm (x y : Float32.float) : Float32.mul x y = Float32.mul y x.
Proof. unfold Float32.mul. now rewrite SFmul_comm. Qed.

Lemma zip_with_comm op :
  (forall x y, op x y = op y x) ->
  forall a b, zip_with op a b = zip_with op b a.
Proof.
  intros C. unfold zip_with.
  induction a as [|x a IH]; intros [|y b]; cbn [combine map fst snd];
    try reflexivity.
  now rewrite C, IH.
Qed.

Lemma dot_from_comm :
  forall a b sum, dot_from sum a b = dot_from sum b a.
Proof.
  unfold dot_from.
  induction a as [|x a IH]; intros [|y b] sum;
    cbn [combine fold_left fst snd]; try reflexivity.
  now rewrite mul_comm, IH.
Qed.

(** Elementwise addition and multiplication commute: for valid vectors of
    equal dimension without NaN elements, [a + b] is [b + a] and [a * b]
    is [b * a], bit for bit. (NaN operands are left out because the
    payload of a NaN result may depend on the order of two NaN operands,
    which the single NaN image of [Float32.of_SF] does not show.) *)
Theorem plus_times_commutative (a b : Vector) :
  valid a -> valid b -> dim a = dim b -> nan_free a -> nan_free b ->
  operator_plus a b = operator_plus b a /\
  operator_times a b = operator_times b a.
Proof.
  intros Va Vb E _ _. unfold operator_plus, operator_times.
  rewrite !elementwise_ok by (try assumption; congruence).
  rewrite E, (zip_with_comm Float32.add add_comm (data a)),
    (zip_with_comm Float32.mul mul_comm (data a)).
  now split.
Qed.

Lemma plus_times_commutative_witness :
  operator_plus v123 v456 = operator_plus v456 v123 /\
  operator_times v123 v456 = operator_times v456 v123.
Proof.
  assert (V1 : valid v123) by (unfold valid, VECTOR_MAX_DIM; cbn; lia).
  assert (V2 : valid v456) by (unfold valid, VECTOR_MAX_DIM; cbn; lia).
  assert (N1 : nan_free v123) by repeat constructor.
  assert (N2 : nan_free v456) by repeat constructor.
  exact (plus_times_commutative v123 v456 V1 V2 eq_refl N1 N2).
Defined.

(** [dot_product] and [cosine_similarity] are symmetric on vectors of
    equal dimension without NaN elements. *)
Theorem dot_cosine_symmetric (a b : Vector) :
  well_formed a -> well_formed b -> dim a = dim b ->
  nan_free a -> nan_free b ->
  dot_product a b = dot_product b a /\
  cosine_similarity a b = cosine_similarity b a.
Proof.
  intros Wa Wb E _ _.
  pose proof (proj1 (well_formed_lengths a b Wa Wb) E) as L.
  assert (D : dot_product a b = dot_product b a).
  { rewrite !dot_product_ok by congruence. now rewrite dot_from_comm. }
  split; [exact D|]. unfold cosine_similarity. rewrite D.
  destruct (dot_product b a) as [d|e|]; cbn [bind]; try reflexivity.
  rewrite (orb_comm (Float32.eqb (l2_norm b) Float32.zero)).
  now rewrite (mul_comm (l2_norm b)).
Qed.

Lemma dot_cosine_symmetric_witness :
  dot_product v123 v456 = dot_product v456 v123 /\
  cosine_similarity v123 v456 = cosine_similarity v456 v123.
Proof.
  assert (W1 : well_formed v123) by (unfold well_formed; cbn; lia).
  assert (W2 : well_formed v456) by (unfold well_formed; cbn; lia).
  assert (N1 : nan_free v123) by repeat constructor.
  assert (N2 : nan_free v456) by repeat constructor.
  exact (dot_cosine_symmetric v123 v456 W1 W2 eq_refl N1 N2).
Defined.

Lemma dot_from_self :
  forall l sum,
    dot_from sum l l
    = fold_left (fun s val => Float32.add s (Float32.mul val val)) l sum.
Proof.
  unfold dot_from. induction l as [|x l IH]; intros sum;
    cbn [combine fold_left fst snd]; [reflexivity|apply IH].
Qed.

(** The L2 norm is the square root of the dot product of a vector with
    itself: [dot_product(v, v)] always returns, and [l2_norm(v)] is the
    single-precision square root of its result. *)
Theorem l2_norm_is_sqrt_dot (v : Vector) :
  exists d, dot_product v v = Ret d /\ l2_norm v = Float32.sqrt d.
Proof.
  exists (dot_from Float32.zero (data v) (data v)).
  split; [now apply dot_product_ok|].
  unfold l2_norm. now rewrite dot_from_self.
Qed.

Lemma dot_from_products :
  forall a b sum,
    fold_left Float32.add (zip_with Float32.mul a b) sum = dot_from sum a b.
Proof.
  unfold dot_from, zip_with.
  induction a as [|x a IH]; intros [|y b] sum;
    cbn [combine map fold_left fst snd]; try reflexivity.
  apply IH.
Qed.

(** Multiplying elementwise and summing the products from left to right,
    starting from [0.0f], gives exactly [dot_product]. *)
Theorem times_then_sum_is_dot (a b : Vector) :
  valid a -> valid b -> dim a = dim b ->
  exists r,
    operator_times a b = Ret r /\
    dot_product a b = Ret (fold_left Float32.add (data r) Float32.zero).
Proof.
  intros Va Vb E. unfold operator_times.
  rewrite elementwise_ok by assumption.
  eexists. split; [reflexivity|]. cbn [data].
  rewrite dot_from_products. apply dot_product_ok; [|exact E].
  destruct Va as [_ La], Vb as [_ Lb]. now rewrite La, Lb, E.
Qed.

Lemma times_then_sum_is_dot_witness :
  exists r,
    operator_times v123 v456 = Ret r /\
    dot_product v123 v456 = Ret (fold_left Float32.add (data r) Float32.zero).
Proof.
  apply (times_then_sum_is_dot v123 v456);
    [unfold valid, VECTOR_MAX_DIM; cbn; lia
    |unfold valid, VECTOR_MAX_DIM; cbn; lia
    |reflexivity].
Defined.

(* ================================================================= *)
(** ** NaN and the norms *)

Lemma is_nan_add_l (x y : Float32.float) :
  Float32.is_nan x = true -> Float32.is_nan (Float32.add x y) = true.
Proof.
  unfold Float32.is_nan at 1, Float32.add.
  destruct (Float32.to_SF x); try discriminate. reflexivity.
Qed.

Lemma is_nan_add_r (x y : Float32.float) :
  Float32.is_nan y = true -> Float32.is_nan (Float32.add x y) = true.
Proof.
  unfold Float32.is_nan at 1, Float32.add.
  destruct (Float32.to_SF y); try discriminate.
  now destruct (Float32.to_SF x) as [[|]|[|]| |].
Qed.

Lemma is_nan_mul_l (x y : Float32.float) :
  Float32.is_nan x = true -> Float32.is_nan (Float32.mul x y) = true.
Proof.
  unfold Float32.is_nan at 1, Float32.mul.
  destruct (Float32.to_SF x); try discriminate. reflexivity.
Qed.

Lemma is_nan_mul_r (x y : Float32.float) :
  Float32.is_nan y = true -> Float32.is_nan (Float32.mul x y) = true.
Proof. rewrite mul_comm. apply is_nan_mul_l. Qed.

Lemma is_nan_abs (x : Float32.float) :
  Float32.is_nan x = true -> Float32.is_nan (Float32.abs x) = true.
Proof.
  unfold Float32.is_nan at 1, Float32.abs.
  destruct (Float32.to_SF x); try discriminate. reflexivity.
Qed.

Lemma is_nan_sqrt (x : Float32.float) :
  Float32.is_nan x = true -> Float32.is_nan (Float32.sqrt x) = true.
Proof.
  unfold Float32.is_nan at 1, Float32.sqrt.
  destruct (Float32.to_SF x); try discriminate. reflexivity.
Qed.

Lemma is_nan_div_r (x y : Float32.float) :
  Float32.is_nan y = true -> Float32.is_nan (Float32.div x y) = true.
Proof.
  unfold Float32.is_nan at 1, Float32.div.
  destruct (Float32.to_SF y); try discriminate.
  now destruct (Float32.to_SF x) as [[|]|[|]| |].
Qed.

(** A sum accumulated by [sum += g(val)] is a NaN as soon as the running
    sum or one of the terms is a NaN. *)
Lemma accumulate_nan (g : Float32.float -> Float32.float)
  (l : list Float32.float) :
  (forall x, Float32.is_nan x = true -> Float32.is_nan (g x) = true) ->
  forall sum,
    Float32.is_nan sum = true \/
    Exists (fun x => Float32.is_nan x = true) l ->
    Float32.is_nan (fold_left (fun s val => Float32.add s (g val)) l sum)
    = true.
Proof.
  intros G. induction l as [|x l IH]; intros sum H; cbn [fold_left].
  - destruct H as [H|H]; [exact H|inversion H].
  - apply IH. destruct H as [H|H].
    + left. now apply is_nan_add_l.
    + inversion H as [? ? Hx|? ? Hl]; subst.
      * left. apply is_nan_add_r. now apply G.
      * now right.
Qed.

(** Both norms of a vector that has a NaN element are NaN. *)
Theorem norms_propagate_nan (v : Vector) :
  has_nan v ->
  Float32.is_nan (l2_norm v) = true /\ Float32.is_nan (l1_norm v) = true.
Proof.
  intros H. unfold l2_norm, l1_norm. split.
  - apply is_nan_sqrt.
    apply (accumulate_nan (fun val => Float32.mul val val)); [|now right].
    intros x. apply is_nan_mul_l.
  - apply (accumulate_nan Float32.abs); [|now right]. apply is_nan_abs.
Qed.

Lemma norms_propagate_nan_witness :
  Float32.is_nan (l2_norm (mkVector 0 2 0 [f_one; f_nan])) = true /\
  Float32.is_nan (l1_norm (mkVector 0 2 0 [f_one; f_nan])) = true.
Proof.
  apply (norms_propagate_nan (mkVector 0 2 0 [f_one; f_nan])).
  unfold has_nan; cbn [data]. apply Exists_cons_tl, Exists_cons_hd.
  reflexivity.
Defined.

(** [cosine_similarity] with a NaN element in [a]: the result is a NaN
    when the norm of [b] is not zero, but the zero-norm rule still wins:
    when the norm of [b] is zero the result is [+0.0f]. *)
Theorem cosine_similarity_nan (a b : Vector) :
  well_formed a -> well_formed b -> dim a = dim b -> has_nan a ->
  (Float32.eqb (l2_norm b) Float32.zero = false ->
   exists r, cosine_similarity a b = Ret r /\ Float32.is_nan r = true) /\
  (Float32.eqb (l2_norm b) Float32.zero = true ->
   cosine_similarity a b = Ret Float32.zero).
Proof.
  intros Wa Wb E Ha.
  pose proof (proj1 (well_formed_lengths a b Wa Wb) E) as L.
  assert (Na : Float32.is_nan (l2_norm a) = true).
  { unfold l2_norm. apply is_nan_sqrt.
    apply (accumulate_nan (fun val => Float32.mul val val)); [|now right].
    intros x. apply is_nan_mul_l. }
  unfold cosine_similarity. rewrite dot_product_ok by assumption.
  cbn [bind]. rewrite (eqb_nan_l _ _ Na). cbn [orb]. split; intros ->.
  - eexists. split; [reflexivity|]. apply is_nan_div_r.
    now apply is_nan_mul_l.
  - reflexivity.
Qed.

Lemma cosine_similarity_nan_witness :
  (exists r, cosine_similarity (mkVector 0 3 0 [f_one; f_nan; f_two]) v123
             = Ret r /\ Float32.is_nan r = true) /\
  cosine_similarity (mkVector 0 3 0 [f_one; f_nan; f_two])
                    (mkVector 0 3 0 [0; 0; 0]) = Ret Float32.zero.
Proof.
  assert (W1 : well_formed (mkVector 0 3 0 [f_one; f_nan; f_two]))
    by (unfold well_formed; cbn; lia).
  assert (W2 : well_formed v123) by (unfold well_formed; cbn; lia).
  assert (W3 : well_formed (mkVector 0 3 0 [0; 0; 0]))
    by (unfold well_formed; cbn; lia).
  assert (N : has_nan (mkVector 0 3 0 [f_one; f_nan; f_two])).
  { unfold has_nan; cbn [data]. apply Exists_cons_tl, Exists_cons_hd.
    reflexivity. }
  split.
  - apply (proj1 (cosine_similarity_nan _ v123 W1 W2 eq_refl N)).
    reflexivity.
  - apply (proj2 (cosine_similarity_nan _ _ W1 W3 eq_refl N)).
    reflexivity.
Defined.

Lemma sum_of_abs_zero (l : list Float32.float) :
  Forall (fun x => exists s, Float32.to_SF x = S754_zero s) l ->
  fold_left (fun sum val => Float32.add sum (Float32.abs val)) l Float32.zero
  = Float32.zero.
Proof.
  induction 1 as [|x l [s Hx] _ IH]; [reflexivity|].
  cbn [fold_left].
  replace (Float32.add Float32.zero (Float32.abs x)) with Float32.zero;
    [exact IH|].
  unfold Float32.add, Float32.abs. rewrite Hx. reflexivity.
Qed.

(** The norms of a vector of zeros, of either sign, and of the empty
    vector left by the default constructor or by a move, are [+0.0f]. *)
Theorem norms_of_zero_vector (v : Vector) :
  is_zero_vector v ->
  l1_norm v = Float32.zero /\ l2_norm v = Float32.zero.
Proof.
  intros H. split.
  - unfold l1_norm. now apply sum_of_abs_zero.
  - unfold l2_norm. now rewrite sum_of_squares_zero.
Qed.

Lemma norms_of_zero_vector_witness :
  l1_norm (mkVector 0 2 0 [0x80000000; 0]) = Float32.zero /\
  l2_norm Vector_default = Float32.zero.
Proof.
  split.
  - apply (norms_of_zero_vector (mkVector 0 2 0 [0x80000000; 0])).
    repeat constructor; [now exists true|now exists false].
  - apply (norms_of_zero_vector Vector_default). constructor.
Defined.

(* ================================================================= *)
(** ** From bytes to values and back *)

Lemma Z_of_byte_range (b : byte) : 0 <= Z_of_byte b < 256.
Proof.
  unfold Z_of_byte. pose proof (Byte.to_N_bounded b). lia.
Qed.

Lemma byte_of_Z_of_byte (b : byte) : byte_of_Z (Z_of_byte b) = b.
Proof.
  unfold byte_of_Z. rewrite Z.mod_small by apply Z_of_byte_range.
  unfold Z_of_byte. rewrite N2Z.id, Byte.of_to_N. reflexivity.
Qed.

Lemma byte_of_Z_mod (z k : Z) : byte_of_Z (z + k * 256) = byte_of_Z z.
Proof. unfold byte_of_Z. now rewrite Z.mod_add by lia. Qed.

Lemma le_value_range (bs : list byte) :
  0 <= le_value bs < 2 ^ (8 * Z.of_nat (length bs)).
Proof.
  induction bs as [|b bs IH]; cbn [le_value length]; [cbn; lia|].
  replace (8 * Z.of_nat (S (length bs))) with (8 + 8 * Z.of_nat (length bs))
    by lia.
  rewrite Z.pow_add_r by lia. change (2 ^ 8) with 256.
  pose proof (Z_of_byte_range b). nia.
Qed.

Lemma le_bytes_le_value (bs : list byte) :
  le_bytes (length bs) (le_value bs) = bs.
Proof.
  induction bs as [|b bs IH]; cbn [le_value length le_bytes]; [reflexivity|].
  pose proof (Z_of_byte_range b) as R. f_equal.
  - rewrite Z.mul_comm, byte_of_Z_mod. apply byte_of_Z_of_byte.
  - rewrite Z.mul_comm, Z.div_add by lia.
    rewrite Z.div_small by exact R. exact IH.
Qed.

Lemma le_bytes_wrap (n : nat) :
  forall z k, le_bytes n (z + k * 2 ^ (8 * Z.of_nat n)) = le_bytes n z.
Proof.
  induction n as [|n IH]; intros z k; cbn [le_bytes]; [reflexivity|].
  replace (8 * Z.of_nat (S n)) with (8 * Z.of_nat n + 8) by lia.
  rewrite Z.pow_add_r by lia. change (2 ^ 8) with 256.
  rewrite Z.mul_assoc. f_equal.
  - apply byte_of_Z_mod.
  - rewrite Z.div_add by lia. apply IH.
Qed.

Lemma in_host_order_involutive host (bs : list byte) :
  in_host_order host (in_host_order host bs) = bs.
Proof. destruct host; [reflexivity|apply rev_involutive]. Qed.

Lemma in_host_order_length host (bs : list byte) :
  length (in_host_order host bs) = length bs.
Proof. destruct host; [reflexivity|apply length_rev]. Qed.

Lemma object_bytes_unsigned_value host (bs : list byte) :
  object_bytes host (length bs) (unsigned_value host bs) = bs.
Proof.
  unfold object_bytes, unsigned_value.
  rewrite <- (in_host_order_length host bs), le_bytes_le_value.
  apply in_host_order_involutive.
Qed.

Lemma object_bytes_signed_value host (bs : list byte) :
  object_bytes host (length bs) (signed_value host bs) = bs.
Proof.
  unfold signed_value.
  destruct (unsigned_value host bs <? 2 ^ (8 * Z.of_nat (length bs) - 1)).
  - apply object_bytes_unsigned_value.
  - unfold object_bytes.
    replace (unsigned_value host bs - 2 ^ (8 * Z.of_nat (length bs)))
      with (unsigned_value host bs + (-1) * 2 ^ (8 * Z.of_nat (length bs)))
      by lia.
    rewrite le_bytes_wrap. apply object_bytes_unsigned_value.
Qed.

Lemma unsigned_value_range host (bs : list byte) :
  0 <= unsigned_value host bs < 2 ^ (8 * Z.of_nat (length bs)).
Proof.
  unfold unsigned_value. rewrite <- (in_host_order_length host bs).
  apply le_value_range.
Qed.

Lemma signed_value_int32 host (bs : list byte) :
  length bs = 4%nat -> int32_range (signed_value host bs).
Proof.
  intros L. unfold int32_range, signed_value.
  pose proof (unsigned_value_range host bs) as R. rewrite L in *.
  change (8 * Z.of_nat 4 - 1) with 31. change (8 * Z.of_nat 4) with 32 in *.
  change (2 ^ 32) with 4294967296 in *. change (2 ^ 31) with 2147483648.
  destruct (Z.ltb_spec (unsigned_value host bs) 2147483648); lia.
Qed.

Lemma signed_value_int16 host (bs : list byte) :
  length bs = 2%nat -> int16_range (signed_value host bs).
Proof.
  intros L. unfold int16_range, signed_value.
  pose proof (unsigned_value_range host bs) as R. rewrite L in *.
  change (8 * Z.of_nat 2 - 1) with 15. change (8 * Z.of_nat 2) with 16 in *.
  change (2 ^ 16) with 65536 in *. change (2 ^ 15) with 32768.
  destruct (Z.ltb_spec (unsigned_value host bs) 32768); lia.
Qed.

Lemma chunks_are_floats host (count : nat) :
  forall bs,
    Forall Float32.is_float
           (map (unsigned_value host) (chunks sizeof_float count bs)).
Proof.
  induction count as [|c IH]; intros bs; cbn [chunks map]; constructor;
    [|apply IH].
  unfold Float32.is_float.
  pose proof (unsigned_value_range host (firstn sizeof_float bs)) as R.
  pose proof (firstn_le_length sizeof_float bs) as L.
  unfold sizeof_float in *.
  assert (2 ^ (8 * Z.of_nat (length (firstn 4 bs))) <= 2 ^ 32)
    by (apply Z.pow_le_mono_r; lia).
  lia.
Qed.

Lemma flat_map_chunks host (count : nat) :
  forall bs,
    length bs = (count * sizeof_float)%nat ->
    flat_map (object_bytes host sizeof_float)
             (map (unsigned_value host) (chunks sizeof_float count bs))
    = bs.
Proof.
  unfold sizeof_float.
  induction count as [|c IH]; intros bs L; cbn [chunks map flat_map].
  - destruct bs; [reflexivity|discriminate].
  - assert (L4 : length (firstn 4 bs) = 4%nat)
      by (rewrite length_firstn; lia).
    rewrite <- L4 at 1. rewrite object_bytes_unsigned_value.
    rewrite IH by (rewrite length_skipn; lia).
    apply firstn_skipn.
Qed.

(** What [deserialize] returns, and where in the buffer it found it. *)
Lemma deserialize_returns host (buffer : list byte) (v : Vector) :
  deserialize host buffer = Ret v ->
  1 <= dim v <= 16000 /\
  (8 + 4 * Z.to_nat (dim v) <= length buffer)%nat /\
  v = mkVector
        (signed_value host (firstn 4 buffer)) (header_dimension host buffer)
        (signed_value host (firstn 2 (skipn 6 buffer)))
        (map (unsigned_value host)
             (chunks 4 (Z.to_nat (header_dimension host buffer))
                     (firstn (Z.to_nat (header_dimension host buffer) * 4)
                             (skipn 8 buffer)))).
Proof.
  rewrite deserialize_cases. cbv zeta.
  set (d := header_dimension host buffer).
  destruct (Nat.ltb_spec (length buffer) 8); [discriminate|].
  destruct (Z.ltb_spec d 1); [discriminate|].
  destruct (Z.gtb_spec d 16000); [discriminate|].
  destruct (Nat.ltb_spec (length buffer) (8 + 4 * Z.to_nat d));
    [discriminate|].
  intros Hv. injection Hv as <-. cbn [dim]. repeat split; try lia.
Qed.

Lemma deserialize_returns_valid host (buffer : list byte) (v : Vector) :
  deserialize host buffer = Ret v -> valid v /\ representable v.
Proof.
  intros H. destruct (deserialize_returns host buffer v H) as (R & C & E).
  rewrite E in R, C |- *. cbn [dim] in R, C.
  set (d := header_dimension host buffer) in *.
  unfold valid, representable, VECTOR_MAX_DIM; cbn [vl_len_ dim unused data].
  split; [split; [lia|now rewrite length_map, chunks_length]|].
  split; [apply signed_value_int32; rewrite length_firstn; lia|].
  split; [unfold int16_range; change (2 ^ 15) with 32768; lia|].
  split; [|apply chunks_are_floats].
  apply signed_value_int16. rewrite length_firstn, length_skipn. lia.
Qed.

Lemma firstn_then {A : Type} (a b : nat) :
  forall l : list A, firstn a l ++ firstn b (skipn a l) = firstn (a + b) l.
Proof.
  induction a as [|a IH]; intros [|x l]; cbn [firstn skipn app Nat.add];
    try reflexivity.
  - now rewrite firstn_nil.
  - f_equal. apply IH.
Qed.

Lemma buffer_split (buffer : list byte) (n : nat) :
  firstn 4 buffer
  ++ firstn 2 (skipn 4 buffer)
  ++ firstn 2 (skipn 6 buffer)
  ++ firstn n (skipn 8 buffer)
  = firstn (8 + n) buffer.
Proof.
  replace (skipn 8 buffer) with (skipn 2 (skipn 6 buffer))
    by now rewrite skipn_skipn.
  rewrite firstn_then.
  replace (skipn 6 buffer) with (skipn 2 (skipn 4 buffer))
    by now rewrite skipn_skipn.
  rewrite firstn_then, firstn_then. reflexivity.
Qed.

(** The image of a decoded vector is the prefix of the buffer it was
    decoded from. *)
Lemma deserialize_image_prefix host (buffer : list byte) (v : Vector) :
  deserialize host buffer = Ret v ->
  image host v = firstn (8 + 4 * Z.to_nat (dim v)) buffer.
Proof.
  intros H. destruct (deserialize_returns host buffer v H) as (R & C & E).
  rewrite E in R, C |- *. cbn [dim] in R, C |- *.
  set (d := header_dimension host buffer) in *.
  unfold image; cbn [vl_len_ dim unused data].
  assert (L4 : length (firstn 4 buffer) = 4%nat)
    by (rewrite length_firstn; lia).
  assert (L2 : length (firstn 2 (skipn 4 buffer)) = 2%nat)
    by (rewrite length_firstn, length_skipn; lia).
  assert (L2' : length (firstn 2 (skipn 6 buffer)) = 2%nat)
    by (rewrite length_firstn, length_skipn; lia).
  pose proof (object_bytes_signed_value host (firstn 4 buffer)) as A1.
  pose proof (object_bytes_signed_value host (firstn 2 (skipn 4 buffer))) as A2.
  pose proof (object_bytes_signed_value host (firstn 2 (skipn 6 buffer))) as A3.
  rewrite L4 in A1. rewrite L2 in A2. rewrite L2' in A3.
  unfold d at 1, header_dimension, sizeof_int32, sizeof_int16.
  rewrite A1, A2, A3.
  change 4%nat with sizeof_float at 3 4.
  rewrite flat_map_chunks
    by (rewrite length_firstn, length_skipn; unfold sizeof_float; lia).
  rewrite buffer_split. f_equal. lia.
Qed.

(* ================================================================= *)
(** ** More on binary I/O *)

(** Every vector returned by [deserialize] is a vector of the data model:
    its dimension is the header's and lies in [1, 16000], it holds that
    many elements, and its fields fit their C++ types. *)
Theorem deserialize_result_valid host (buffer : list byte) (v : Vector) :
  deserialize host buffer = Ret v ->
  valid v /\ representable v /\ dim v = header_dimension host buffer /\
  (8 + 4 * Z.to_nat (dim v) <= length buffer)%nat.
Proof.
  intros H. destruct (deserialize_returns_valid host buffer v H) as [V R].
  destruct (deserialize_returns host buffer v H) as (_ & C & E).
  repeat split; try apply V; try apply R; [|exact C].
  rewrite E. reflexivity.
Qed.

Lemma deserialize_result_valid_witness :
  valid v123 /\ representable v123.
Proof.
  destruct (deserialize_result_valid
              LittleEndian (image LittleEndian v123) v123)
    as (V & R & _).
  - vm_compute. reflexivity.
  - split; [exact V|exact R].
Defined.

(** Decoding and encoding again: when [deserialize] returns a vector from
    a buffer, serializing that vector into the same buffer leaves every
    byte of the buffer as it was. *)
Theorem deserialize_then_serialize host (buffer : list byte) (v : Vector) :
  deserialize host buffer = Ret v ->
  serialize host v buffer = Ret buffer.
Proof.
  intros H.
  destruct (deserialize_returns_valid host buffer v H) as [[R L] _].
  destruct (deserialize_returns host buffer v H) as (_ & C & _).
  rewrite serialize_layout.
  - rewrite L, (deserialize_image_prefix host buffer v H).
    now rewrite firstn_skipn.
  - split; [unfold VECTOR_MAX_DIM in R; lia|exact L].
  - now rewrite L.
Qed.

Lemma deserialize_then_serialize_witness :
  serialize BigEndian
            (mkVector 1 1 (-1) [0x7FC00001])
            [x00; x00; x00; x01; x00; x01; xff; xff; x7f; xc0; x00; x01; x2a]
  = Ret [x00; x00; x00; x01; x00; x01; xff; xff; x7f; xc0; x00; x01; x2a].
Proof.
  apply (deserialize_then_serialize BigEndian). vm_compute. reflexivity.
Defined.

(** [deserialize] reads the header and the announced elements only: the
    bytes after them do not influence the result. *)
Theorem deserialize_ignores_trailing_bytes
  host (buffer : list byte) (v : Vector) :
  deserialize host buffer = Ret v ->
  forall tail,
    deserialize host (firstn (8 + 4 * Z.to_nat (dim v)) buffer ++ tail)
    = Ret v.
Proof.
  intros H tail.
  destruct (deserialize_returns_valid host buffer v H) as [V R].
  rewrite <- (deserialize_image_prefix host buffer v H).
  now apply deserialize_image.
Qed.

Lemma deserialize_ignores_trailing_bytes_witness :
  deserialize LittleEndian
    (firstn 12 [x00; x00; x00; x00; x01; x00; x00; x00;
                x00; x00; x80; x3f; x2a; x2a] ++ [xff])
  = Ret (single f_one).
Proof.
  apply (deserialize_ignores_trailing_bytes
           LittleEndian
           [x00; x00; x00; x00; x01; x00; x00; x00;
            x00; x00; x80; x3f; x2a; x2a] (single f_one)).
  vm_compute. reflexivity.
Defined.

(** The encoding is unambiguous: when serializing two vectors of the data
    model into the same buffer, large enough for both, leaves the same
    bytes, the two vectors are the same, field for field. *)
Theorem serialize_injective host (v w : Vector) (buffer : list byte) :
  valid v -> representable v -> valid w -> representable w ->
  (8 + 4 * Z.to_nat (dim v) <= length buffer)%nat ->
  (8 + 4 * Z.to_nat (dim w) <= length buffer)%nat ->
  serialize host v buffer = serialize host w buffer ->
  v = w.
Proof.
  intros Vv Rv Vw Rw Cv Cw E.
  assert (Wv : well_formed v)
    by (destruct Vv as [R L]; split; [lia|exact L]).
  assert (Ww : well_formed w)
    by (destruct Vw as [R L]; split; [lia|exact L]).
  rewrite !serialize_layout in E
    by (try assumption; destruct Vv as [? Lv], Vw as [? Lw]; lia).
  pose proof (deserialize_image host v
                (skipn (8 + 4 * length (data v)) buffer) Vv Rv) as Dv.
  pose proof (deserialize_image host w
                (skipn (8 + 4 * length (data w)) buffer) Vw Rw) as Dw.
  set (bv := image host v ++ skipn (8 + 4 * length (data v)) buffer) in *.
  set (bw := image host w ++ skipn (8 + 4 * length (data w)) buffer) in *.
  assert (Eb : bv = bw) by congruence.
  rewrite Eb, Dw in Dv. congruence.
Qed.

Lemma serialize_injective_witness :
  mkVector 0 3 0 (data v123) = v123.
Proof.
  assert (V : valid v123) by (unfold valid, VECTOR_MAX_DIM; cbn; lia).
  assert (R : representable v123).
  { unfold representable, int32_range, int16_range; cbn.
    repeat split; try lia.
    repeat constructor; unfold Float32.is_float; lia. }
  apply (serialize_injective LittleEndian (mkVector 0 3 0 (data v123)) v123
                             (repeat x00 20) V R V R).
  - cbn; lia.
  - cbn; lia.
  - reflexivity.
Defined.

Lemma write_at_outcome (buf : list byte) (pos : nat) (src : list byte) :
  (write_at buf pos src = Undefined /\ (length buf < pos + length src)%nat) \/
  (exists b, write_at buf pos src = Ret b /\ length b = length buf /\
             (pos + length src <= length buf)%nat).
Proof.
  unfold write_at.
  destruct (Nat.leb_spec (pos + length src) (length buf)) as [H|H].
  - right. eexists. split; [reflexivity|]. split; [|exact H].
    rewrite !length_app, length_firstn, length_skipn. lia.
  - left. now split.
Qed.

(** [serialize] makes no check at all: it never throws, it keeps the
    length of the buffer whenever it returns, and on a buffer with fewer
    than [8 + 4 * dim] bytes it writes past the end (undefined behaviour;
    there is no BufferTooSmall error). *)
Theorem serialize_unchecked host (v : Vector) (buffer : list byte) :
  (forall e, serialize host v buffer <> Throw e) /\
  (forall written,
      serialize host v buffer = Ret written ->
      length written = length buffer) /\
  (well_formed v ->
   (length buffer < 8 + 4 * length (data v))%nat ->
   serialize host v buffer = Undefined).
Proof.
  unfold serialize. cbv zeta.
  set (s1 := object_bytes host sizeof_int32 (vl_len_ v)).
  set (s2 := object_bytes host sizeof_int16 (dim v)).
  set (s3 := object_bytes host sizeof_int16 (unused v)).
  assert (L1 : length s1 = 4%nat) by apply object_bytes_length.
  assert (L2 : length s2 = 2%nat) by apply object_bytes_length.
  assert (L3 : length s3 = 2%nat) by apply object_bytes_length.
  destruct (write_at_outcome buffer 0 s1) as [[-> S1]|(b1 & -> & B1 & C1)];
    cbn [bind]; [repeat split; try discriminate; reflexivity|].
  destruct (write_at_outcome b1 (0 + sizeof_int32) s2)
    as [[-> S2]|(b2 & -> & B2 & C2)];
    cbn [bind]; [repeat split; try discriminate; reflexivity|].
  destruct (write_at_outcome b2 (0 + sizeof_int32 + sizeof_int16) s3)
    as [[-> S3]|(b3 & -> & B3 & C3)];
    cbn [bind]; [repeat split; try discriminate; reflexivity|].
  unfold array_bytes.
  destruct ((0 <=? dim v) && (dim v <=? Z.of_nat (length (data v)))) eqn:A;
    cbn [bind]; [|repeat split; try discriminate; reflexivity].
  set (p := flat_map (object_bytes host sizeof_float)
                     (firstn (Z.to_nat (dim v)) (data v))).
  destruct (write_at_outcome
              b3 (0 + sizeof_int32 + sizeof_int16 + sizeof_int16) p)
    as [[-> S4]|(b4 & -> & B4 & C4)].
  - repeat split; try discriminate; reflexivity.
  - split; [discriminate|]. split.
    + intros written H. injection H as <-. congruence.
    + intros [P L] Short. exfalso.
      assert (Lp : length p = (4 * length (data v))%nat).
      { unfold p. rewrite <- L, firstn_all, flat_map_object_bytes_length.
        unfold sizeof_float. lia. }
      unfold sizeof_int32, sizeof_int16 in C4. lia.
Qed.

Lemma serialize_unchecked_witness :
  serialize LittleEndian v123 (repeat x00 19) = Undefined.
Proof.
  apply (proj2 (proj2 (serialize_unchecked
                         LittleEndian v123 (repeat x00 19)))).
  - unfold well_formed; cbn; lia.
  - cbn; lia.
Defined.

(* ================================================================= *)
(** ** The memory pool *)

Lemma land_low_bits (x y : Z) :
  0 <= x < 2 ^ 64 -> Z.land x (y mod 2 ^ 64) = Z.land x y.
Proof.
  intros R. apply Z.bits_inj'. intros i Hi. rewrite !Z.land_spec.
  destruct (Z.lt_ge_cases i 64) as [Lo|Hi64].
  - now rewrite Z.mod_pow2_bits_low by lia.
  - assert (Z.testbit x i = false) as ->; [|reflexivity].
    destruct (Z.eq_dec x 0) as [->|Nz]; [apply Z.bits_0|].
    apply Z.bits_above_log2; [lia|].
    assert (Z.log2 x < 64) by (apply Z.log2_lt_pow2; lia). lia.
Qed.

Lemma align_size_value (k size : Z) :
  0 <= k < 64 -> 0 <= size ->
  align_size (2 ^ k) size
  = ((size + 2 ^ k - 1) mod 2 ^ 64) / 2 ^ k * 2 ^ k.
Proof.
  intros K S. unfold align_size, size_t_wrap.
  assert (P : 0 < 2 ^ k) by (apply Z.pow_pos_nonneg; lia).
  rewrite land_low_bits by (apply Z.mod_pos_bound; lia).
  rewrite <- Z.ldiff_land.
  replace (2 ^ k - 1) with (Z.ones k) by (rewrite Z.ones_equiv; lia).
  rewrite Z.ldiff_ones_r by lia.
  rewrite Z.shiftr_div_pow2, Z.shiftl_mul_pow2 by lia. reflexivity.
Qed.

(** [align_size] for an alignment [2^k]: when [size + 2^k - 1] fits in a
    [size_t] the result is the least multiple of the alignment that is not
    below [size]; for the larger sizes the sum wraps around and the result
    is 0. *)
Theorem align_size_spec (k size : Z) :
  0 <= k < 64 -> 0 <= size < 2 ^ 64 ->
  (size + 2 ^ k - 1 < 2 ^ 64 ->
   align_size (2 ^ k) size mod 2 ^ k = 0 /\
   size <= align_size (2 ^ k) size < size + 2 ^ k) /\
  (2 ^ 64 <= size + 2 ^ k - 1 -> align_size (2 ^ k) size = 0).
Proof.
  intros K S. rewrite align_size_value by lia.
  assert (P : 0 < 2 ^ k) by (apply Z.pow_pos_nonneg; lia).
  assert (Le : 2 ^ k < 2 ^ 64) by (apply Z.pow_lt_mono_r; lia).
  split.
  - intros Fit. rewrite (Z.mod_small (size + 2 ^ k - 1) (2 ^ 64)) by lia.
    split; [apply Z.mod_mul; lia|].
    pose proof (Z.div_mod (size + 2 ^ k - 1) (2 ^ k) ltac:(lia)) as D.
    pose proof (Z.mod_pos_bound (size + 2 ^ k - 1) (2 ^ k) P) as B.
    rewrite (Z.mul_comm (2 ^ k)) in D. lia.
  - intros Over.
    replace ((size + 2 ^ k - 1) mod 2 ^ 64) with (size + 2 ^ k - 1 - 2 ^ 64).
    + rewrite Z.div_small by lia. reflexivity.
    + symmetry. rewrite <- (Z.mod_add _ (-1)) by lia.
      apply Z.mod_small. lia.
Qed.

Lemma align_size_spec_witness :
  align_size 16 1000 mod 16 = 0 /\ 1000 <= align_size 16 1000 < 1016.
Proof.
  apply (proj1 (align_size_spec 4 1000 ltac:(lia) ltac:(lia))).
  reflexivity.
Defined.

Lemma reachable_current_block_null max_align (pool : MemoryPool) :
  reachable max_align pool -> current_block_ pool = None.
Proof.
  induction 1 as [bs R|pool pool' size p Hr IH S A|pool Hr IH];
    try reflexivity.
  unfold allocate in A. cbv zeta in A.
  destruct (size_t_wrap (current_offset_ pool + align_size max_align size)
            >? block_size_ pool).
  - cbn [allocate_new_block block_size_ current_offset_ blocks_
         current_block_ pointer_add] in A.
    cbn [bind] in A. now injection A as _ <-.
  - rewrite IH in A. cbn [pointer_add] in A.
    destruct (current_offset_ pool =? 0); cbn [bind] in A; [|discriminate].
    now injection A as _ <-.
Qed.

(** The pool never hands out memory of its blocks. [allocate_new_block]
    moves the new block out of [current_block_] into [blocks_], so
    [current_block_] is null in every pool a program can build. Hence a
    pointer returned by [allocate] is the null pointer, and an allocation
    that continues in the current block (at a nonzero offset) is pointer
    arithmetic on the null pointer, which is undefined. *)
Theorem allocate_never_uses_a_block max_align (pool : MemoryPool) (size : Z) :
  reachable max_align pool ->
  current_block_ pool = None /\
  (forall p pool',
      allocate max_align pool size = Ret (p, pool') ->
      p = null_pointer /\ current_block_ pool' = None) /\
  (current_offset_ pool <> 0 ->
   size_t_wrap (current_offset_ pool + align_size max_align size)
   <= block_size_ pool ->
   allocate max_align pool size = Undefined).
Proof.
  intros R. pose proof (reachable_current_block_null _ _ R) as N.
  split; [exact N|]. unfold allocate. cbv zeta.
  destruct (Z.gtb_spec
              (size_t_wrap (current_offset_ pool + align_size max_align size))
              (block_size_ pool)) as [New|Same].
  - cbn [allocate_new_block block_size_ current_offset_ blocks_
         current_block_ pointer_add bind].
    split; [|intros; lia].
    intros p pool' H. injection H as <- <-. now split.
  - rewrite N. cbn [pointer_add].
    destruct (Z.eqb_spec (current_offset_ pool) 0) as [Z0|NZ]; cbn [bind].
    + split; [|intros; contradiction].
      intros p pool' H. injection H as <- <-. now split.
    + split; [discriminate|reflexivity].
Qed.

Lemma allocate_never_uses_a_block_witness :
  exists pool1,
    allocate 16 (MemoryPool_ctor default_block_size) 1024
    = Ret (null_pointer, pool1) /\
    allocate 16 pool1 2048 = Undefined.
Proof.
  assert (R0 : reachable 16 (MemoryPool_ctor default_block_size)).
  { constructor. unfold default_block_size. lia. }
  assert (A1 : allocate 16 (MemoryPool_ctor default_block_size) 1024
               = Ret (null_pointer,
                      mkMemoryPool default_block_size 1024 [] None))
    by reflexivity.
  assert (R1 : reachable 16 (mkMemoryPool default_block_size 1024 [] None)).
  { exact (reachable_allocate 16 _ _ 1024 _ R0 ltac:(lia) A1). }
  eexists. split; [exact A1|].
  apply (proj2 (proj2 (allocate_never_uses_a_block 16 _ 2048 R1))).
  - discriminate.
  - vm_compute. discriminate.
Defined.

(* ================================================================= *)
(** ** Prefixes in the order *)

Lemma list_lt_prefix (a ext : list Float32.float) :
  ext <> [] ->
  list_lt a (a ++ ext) = true /\ list_lt (a ++ ext) a = false.
Proof.
  intros N. induction a as [|x a [IH1 IH2]]; cbn [app list_lt].
  - destruct ext; [contradiction|now split].
  - change (Float32.gtb x x) with (Float32.ltb x x).
    rewrite ltb_irrefl. now split.
Qed.

(** A vector sorts strictly before each of its proper extensions: when the
    elements of [b] are those of [a] followed by at least one more, then
    [a < b] and not [b < a], NaN elements included. *)
Theorem prefix_sorts_first (a b : Vector) :
  well_formed a -> well_formed b ->
  (exists ext, ext <> [] /\ data b = data a ++ ext) ->
  operator_lt a b = Ret true /\ operator_lt b a = Ret false.
Proof.
  intros Wa Wb (ext & N & E).
  rewrite !operator_lt_list by assumption. rewrite E.
  destruct (list_lt_prefix (data a) ext N) as [-> ->]. now split.
Qed.

Lemma prefix_sorts_first_witness :
  operator_lt (mkVector 0 2 0 [f_nan; f_one])
              (mkVector 0 3 0 [f_nan; f_one; Float32.zero]) = Ret true.
Proof.
  apply (prefix_sorts_first (mkVector 0 2 0 [f_nan; f_one])
                            (mkVector 0 3 0 [f_nan; f_one; Float32.zero])).
  - unfold well_formed; cbn; lia.
  - unfold well_formed; cbn; lia.
  - exists [Float32.zero]. split; [discriminate|reflexivity].
Defined.
